(** * BalanceUpdater: the Biwenger board fetch / filter / group flow

    A shallow embedding of [balance_updater.py].  The Python values the
    program handles are the ones [json.load] and [response.json()] produce;
    exceptions are explicit results; the console, the network and the output
    file are an explicit state threaded through the methods. *)

From stdpp Require Import gmap strings list fin_maps.
From Stdlib Require Import ZArith Lia.

Open Scope string_scope.
Open Scope list_scope.
Open Scope Z_scope.

(** ** Python values decoded from JSON *)

(** A decoded JSON document.  [JInt] is Python's unbounded [int]; a numeral
    with a fraction or an exponent decodes to a [float] and is outside this
    model.  [JObj] is a [dict] in insertion order, [JArr] a [list].  A
    character of a [JStr] stands for one code point. *)
#[warnings="-register-all"]
Inductive json : Type :=
  | JNull
  | JBool (b : bool)
  | JInt (n : Z)
  | JStr (s : string)
  | JArr (items : list json)
  | JObj (fields : list (string * json)).

(** The exceptions the program can meet. *)
Inductive exn : Type :=
  | FileNotFoundError
  | JSONDecodeError
  | IOError
  | RequestException
  | KeyError
  | TypeError
  | AttributeError
  | UnicodeDecodeError
  | UnicodeEncodeError
  | RuntimeError.

Inductive res (A : Type) : Type :=
  | Ok (a : A)
  | Raise (e : exn).
Arguments Ok {A} a.
Arguments Raise {A} e.

Global Instance res_ret : MRet res := λ A a, Ok a.
Global Instance res_bind : MBind res := λ A B k r,
  match r with
  | Ok a => k a
  | Raise e => Raise e
  end.

(** A hashable value as a [dict] key or [set] member.  Python has
    [True == 1], [False == 0] with equal hashes, so a [bool] is the same
    key as the corresponding [int]. *)
Inductive pykey : Type :=
  | KNone
  | KInt (n : Z)
  | KStr (s : string).

Global Instance pykey_eq_dec : EqDecision pykey.
Proof. solve_decision. Defined.

Definition pykey_enc (k : pykey) : unit + Z + string :=
  match k with
  | KNone => inl (inl tt)
  | KInt n => inl (inr n)
  | KStr s => inr s
  end.

Definition pykey_dec (x : unit + Z + string) : pykey :=
  match x with
  | inl (inl _) => KNone
  | inl (inr n) => KInt n
  | inr s => KStr s
  end.

Global Instance pykey_countable : Countable pykey.
Proof.
  apply (inj_countable' pykey_enc pykey_dec).
  by intros [].
Defined.

Module Py.

(** [bool(v)] *)
Definition truthy (v : json) : bool :=
  match v with
  | JNull => false
  | JBool b => b
  | JInt n => negb (n =? 0)%Z
  | JStr s => negb (String.eqb s "")
  | JArr items => match items with [] => false | _ => true end
  | JObj fields => match fields with [] => false | _ => true end
  end.

(** [hash(v)]: lists and dicts are unhashable. *)
Definition hash_key (v : json) : res pykey :=
  match v with
  | JNull => Ok KNone
  | JBool b => Ok (KInt (if b then 1 else 0))
  | JInt n => Ok (KInt n)
  | JStr s => Ok (KStr s)
  | JArr _ | JObj _ => Raise TypeError
  end.

Fixpoint assoc (key : string) (fields : list (string * json)) : option json :=
  match fields with
  | [] => None
  | (k, v) :: rest => if String.eqb k key then Some v else assoc key rest
  end.
Global Arguments assoc : simpl never.

(** [v.get(key)] and [v.get(key, default)]: only a dict has [get]. *)
Definition get_default (v : json) (key : string) (dflt : json) : res json :=
  match v with
  | JObj fields => Ok (default dflt (assoc key fields))
  | _ => Raise AttributeError
  end.

Definition get (v : json) (key : string) : res json :=
  get_default v key JNull.

(** [v[key]] with a string key. *)
Definition getitem (v : json) (key : string) : res json :=
  match v with
  | JObj fields =>
      match assoc key fields with
      | Some x => Ok x
      | None => Raise KeyError
      end
  | _ => Raise TypeError
  end.

Fixpoint chars (s : string) : list json :=
  match s with
  | EmptyString => []
  | String c rest => JStr (String c EmptyString) :: chars rest
  end.

(** The items [for x in v] and [list.extend(v)] go through. *)
Definition iter (v : json) : res (list json) :=
  match v with
  | JArr items => Ok items
  | JObj fields => Ok (map (fun kv => JStr (fst kv)) fields)
  | JStr s => Ok (chars s)
  | JNull | JBool _ | JInt _ => Raise TypeError
  end.

(** [len(v)] *)
Definition len (v : json) : res Z :=
  match v with
  | JArr items => Ok (Z.of_nat (length items))
  | JObj fields => Ok (Z.of_nat (length fields))
  | JStr s => Ok (Z.of_nat (String.length s))
  | JNull | JBool _ | JInt _ => Raise TypeError
  end.

(** [v in s] for a set of strings. *)
Definition in_strset (v : json) (s : gset string) : res bool :=
  match v with
  | JStr x => Ok (bool_decide (x ∈ s))
  | JNull | JBool _ | JInt _ => Ok false
  | JArr _ | JObj _ => Raise TypeError
  end.

End Py.

(** ** The outside world and the program state *)

(** What the program prints, one constructor per [print] of the source. *)
Inductive message : Type :=
  | MsgInputNotFound        (* "Error: El fichero de entrada no fue encontrado ..." *)
  | MsgInputNotJson         (* "Error: El fichero ... no es un JSON válido." *)
  | MsgStartFetch           (* "Iniciando la obtención de transacciones de la API..." *)
  | MsgNoMore               (* "No se encontraron más transacciones. ..." *)
  | MsgObtained (n total : Z)   (* "Obtenidas n transacciones. Total acumulado: total" *)
  | MsgApiError             (* "Error al contactar la API de Biwenger: ..." *)
  | MsgGrouping             (* "Agrupando transacciones por usuario..." *)
  | MsgSaved                (* "Resultados guardados exitosamente en ..." *)
  | MsgWriteError.          (* "Error al escribir en el fichero de salida: ..." *)

Inductive event : Type :=
  | Print (m : message)
  | HttpGet (offset limit : Z).

(** What [open(input_file)] followed by [json.load] does.  The file is
    opened as UTF-8 text: bytes that are not UTF-8 make the read raise
    [UnicodeDecodeError], a [ValueError] that is not a [JSONDecodeError]. *)
Inductive source_outcome : Type :=
  | SourceMissing                 (* FileNotFoundError *)
  | SourceNotJson                 (* json.JSONDecodeError: UTF-8 text that is not JSON *)
  | SourceUnreadable              (* any other OSError of open or read *)
  | SourceNotUtf8                 (* UnicodeDecodeError: the bytes are not UTF-8 *)
  | SourceJson (doc : json).

(** What [requests.get] does: no response at all (connection failure,
    timeout), or a response with its status code and its body, [None] when
    the body is not JSON. *)
Inductive http_outcome : Type :=
  | NoResponse
  | Response (status : Z) (body : option json).

(** What [open(output_file, 'w')] followed by [json.dump] does.  With
    [ensure_ascii=False] a string of the data that holds a code point
    UTF-8 cannot encode (a lone surrogate, which [json.load] accepts
    written as an escape) makes a write raise [UnicodeEncodeError], a
    [ValueError] and not an [IOError].  Strings are not modelled down to
    such code points, so this is an outcome of the sink. *)
Inductive sink_outcome : Type :=
  | SinkOk
  | SinkOpenFails                 (* open raises IOError: nothing is touched *)
  | SinkDumpFails                 (* the file is created or truncated, then a write raises IOError *)
  | SinkEncodeFails.              (* the file is created or truncated, then a write raises UnicodeEncodeError *)

Record world : Type := World {
  input_source : source_outcome;
  api : Z → Z → http_outcome;      (* by [offset] and [limit] *)
  sink : sink_outcome
}.

(** The content of the output file. *)
Inductive file_content : Type :=
  | Prior                                   (* left there before this run *)
  | Truncated                               (* opened for writing, dump not completed *)
  | Dumped (data : gmap pykey (list json)). (* the whole of [json.dump(data, f)] *)

Record state : Type := State {
  log : list event;                  (* console output and requests, in order *)
  output : option file_content       (* [None]: no file at [output_file] *)
}.

(** Stateful code that may raise; [None] is a [while True] loop that has
    not finished within the fuel given. *)
Definition M (A : Type) : Type := state → option (res A * state).

Global Instance M_ret : MRet M := λ A a s, Some (Ok a, s).
Global Instance M_bind : MBind M := λ A B k m s,
  match m s with
  | Some (Ok a, s') => k a s'
  | Some (Raise e, s') => Some (Raise e, s')
  | None => None
  end.

Definition lift {A} (r : res A) : M A := λ s, Some (r, s).
Definition raise {A} (e : exn) : M A := lift (Raise e).
Definition emit (ev : event) : M unit :=
  λ s, Some (Ok (), State (log s ++ [ev]) (output s)).
Definition print (m : message) : M unit := emit (Print m).
Definition set_output (c : file_content) : M unit :=
  λ s, Some (Ok (), State (log s) (Some c)).
Definition diverge {A} : M A := λ _, None.

(** ** class BalanceUpdater *)

Record BalanceUpdater : Type := Self {
  league_id : Z;
  user_id : Z;
  token : string;
  input_file : string;
  output_file : string;
  allowed_types : gset string
}.

(** [__init__] *)
Definition init (league user : Z) (tok inp out : string) : BalanceUpdater :=
  {| league_id := league; user_id := user; token := tok;
     input_file := inp; output_file := out;
     allowed_types := {[ "transfer"; "market"; "clauseIncrement" ]} |}.

(** The set comprehension [{team['id'] for team in teams}] over the items
    of [teams]. *)
Fixpoint id_set (teams : list json) (acc : gset pykey) : res (gset pykey) :=
  match teams with
  | [] => Ok acc
  | team :: rest =>
      v ← Py.getitem team "id";
      k ← Py.hash_key v;
      id_set rest ({[ k ]} ∪ acc)
  end.

(** [_load_team_ids] *)
Definition _load_team_ids (self : BalanceUpdater) (w : world) : M (gset pykey) :=
  match input_source w with
  | SourceMissing => print MsgInputNotFound;; mret ∅
  | SourceNotJson => print MsgInputNotJson;; mret ∅
  | SourceUnreadable => raise IOError
  | SourceNotUtf8 => raise UnicodeDecodeError
  | SourceJson teams => lift (items ← Py.iter teams; id_set items ∅)
  end.

(** [response.raise_for_status()] raises for the statuses 4xx and 5xx. *)
Definition raise_for_status (status : Z) : bool :=
  (400 <=? status)%Z && (status <? 600)%Z.

(** The [while True] loop of [_fetch_all_transactions].  The three raising
    calls of the [try] block, [requests.get], [raise_for_status] and
    [response.json], raise subclasses of [RequestException]; anything else
    raised in the block passes through the [except] clause. *)
Fixpoint fetch_loop (fuel : nat) (w : world) (offset limit : Z)
    (all_transactions : list json) : M (option (list json)) :=
  match fuel with
  | O => diverge
  | S fuel' =>
      emit (HttpGet offset limit);;
      match api w offset limit with
      | NoResponse => print MsgApiError;; mret None
      | Response status body =>
          if raise_for_status status then print MsgApiError;; mret None
          else
            match body with
            | None => print MsgApiError;; mret None
            | Some doc =>
                data ← lift (Py.get_default doc "data" (JArr []));
                if negb (Py.truthy data) then
                  print MsgNoMore;; mret (Some all_transactions)
                else
                  items ← lift (Py.iter data);
                  let all_transactions := all_transactions ++ items in
                  n ← lift (Py.len data);
                  print (MsgObtained n (Z.of_nat (length all_transactions)));;
                  if (n <? limit)%Z then mret (Some all_transactions)
                  else fetch_loop fuel' w (offset + limit) limit all_transactions
            end
      end
  end.

(** [_fetch_all_transactions]: [None] is Python's [None]. *)
Definition _fetch_all_transactions (self : BalanceUpdater) (w : world)
    (fuel : nat) : M (option (list json)) :=
  print MsgStartFetch;;
  fetch_loop fuel w 0 100 [].

(** The key a transaction is filed under by the body of the [for] loop of
    [_group_transactions], [None] when the first [if] rejects it. *)
Definition tx_key (self : BalanceUpdater) (tx : json) : res (option pykey) :=
  tx_type ← Py.get tx "type";
  user_info ← Py.get tx "user";
  if Py.truthy user_info then
    allowed ← Py.in_strset tx_type (allowed_types self);
    if allowed : bool then
      user_id ← Py.get user_info "id";
      k ← Py.hash_key user_id;
      mret (Some k)
    else mret None
  else mret None.

(** One round of the [for] loop. *)
Definition group_step (self : BalanceUpdater)
    (grouped_data : gmap pykey (list json)) (tx : json)
    : res (gmap pykey (list json)) :=
  key ← tx_key self tx;
  match key with
  | Some user_id =>
      match grouped_data !! user_id with
      | Some bucket => mret (<[ user_id := bucket ++ [tx] ]> grouped_data)
      | None => mret grouped_data
      end
  | None => mret grouped_data
  end.

Fixpoint group_loop (self : BalanceUpdater) (transactions : list json)
    (grouped_data : gmap pykey (list json)) : res (gmap pykey (list json)) :=
  match transactions with
  | [] => Ok grouped_data
  | tx :: rest =>
      grouped_data ← group_step self grouped_data tx;
      group_loop self rest grouped_data
  end.

(** [_group_transactions] *)
Definition _group_transactions (self : BalanceUpdater)
    (transactions : list json) (team_ids : gset pykey)
    : M (gmap pykey (list json)) :=
  print MsgGrouping;;
  lift (group_loop self transactions (gset_to_gmap [] team_ids)).

(** [_save_results] *)
Definition _save_results (self : BalanceUpdater) (w : world)
    (data : gmap pykey (list json)) : M unit :=
  match sink w with
  | SinkOk => set_output (Dumped data);; print MsgSaved
  | SinkOpenFails => print MsgWriteError
  | SinkDumpFails => set_output Truncated;; print MsgWriteError
  | SinkEncodeFails => set_output Truncated;; raise UnicodeEncodeError
  end.

(** [run] *)
Definition run (self : BalanceUpdater) (w : world) (fuel : nat) : M unit :=
  team_ids ← _load_team_ids self w;
  if decide (team_ids = ∅) then mret ()
  else
    transactions ← _fetch_all_transactions self w fuel;
    match transactions with
    | None => mret ()
    | Some transactions =>
        grouped_transactions ← _group_transactions self transactions team_ids;
        _save_results self w grouped_transactions
    end.

(** ** Vocabulary of the statements *)

Global Instance exn_eq_dec : EqDecision exn.
Proof. solve_decision. Defined.

Global Instance res_eq_dec {A} `{EqDecision A} : EqDecision (res A).
Proof. solve_decision. Defined.

(** The requests recorded in a log, in order. *)
Fixpoint requests (l : list event) : list (Z * Z) :=
  match l with
  | [] => []
  | HttpGet offset limit :: rest => (offset, limit) :: requests rest
  | Print _ :: rest => requests rest
  end.

(** The messages recorded in a log, in order. *)
Fixpoint printed (l : list event) : list message :=
  match l with
  | [] => []
  | Print m :: rest => m :: printed rest
  | HttpGet _ _ :: rest => printed rest
  end.

(** A value that is neither a list nor a dict. *)
Definition scalar (v : json) : bool :=
  match v with
  | JArr _ | JObj _ => false
  | _ => true
  end.

(** A transaction record as the board serves it: an object whose [type],
    when present, is a scalar and whose [user], when present, is null or an
    object whose [id], when present, is a scalar. *)
Definition well_formed_tx (tx : json) : bool :=
  match tx with
  | JObj fields =>
      scalar (default JNull (Py.assoc "type" fields)) &&
      match default JNull (Py.assoc "user" fields) with
      | JNull => true
      | JObj user => scalar (default JNull (Py.assoc "id" user))
      | _ => false
      end
  | _ => false
  end.

(** The record has a [type] field that is one of the allowed strings. *)
Definition type_allowed (tx : json) : Prop :=
  ∃ fields ty, tx = JObj fields ∧ Py.assoc "type" fields = Some (JStr ty) ∧
    ty ∈ ({[ "transfer"; "market"; "clauseIncrement" ]} : gset string).

(** The record has a nested [user.id], and it is the key [k]. *)
Definition user_id_is (tx : json) (k : pykey) : Prop :=
  ∃ fields user v, tx = JObj fields ∧ Py.assoc "user" fields = Some (JObj user) ∧
    Py.assoc "id" user = Some v ∧ Py.hash_key v = Ok k.

(** The record is filed under [k] by the loop body. *)
Definition filed_under (self : BalanceUpdater) (k : pykey) (tx : json) : Prop :=
  tx_key self tx = Ok (Some k).

Global Instance filed_under_dec self k tx : Decision (filed_under self k tx).
Proof. unfold filed_under. apply _. Defined.

(** The endpoint answers the request at [offset] with a page of records:
    a response that [raise_for_status] accepts, whose body is an object
    with the list [page] as its [data]. *)
Definition serves (w : world) (offset : Z) (page : list json) : Prop :=
  ∃ status fields, api w offset 100 = Response status (Some (JObj fields)) ∧
    raise_for_status status = false ∧
    Py.assoc "data" fields = Some (JArr page).

(** A request that ends in the [except RequestException] clause. *)
Definition transport_failure (r : http_outcome) : Prop :=
  match r with
  | NoResponse => True
  | Response status body => 400 ≤ status < 600 ∨ body = None
  end.

(** The same with every status outside 2xx counted as a failure. *)
Definition transport_failure_non_2xx (r : http_outcome) : Prop :=
  match r with
  | NoResponse => True
  | Response status body => ¬ (200 ≤ status < 300) ∨ body = None
  end.

(** What the loop logs while it goes through the pages [full] from
    [offset], with [held] records accumulated before. *)
Fixpoint pages_log (offset : Z) (held : nat) (full : list (list json))
    : list event :=
  match full with
  | [] => []
  | page :: rest =>
      HttpGet offset 100
      :: Print (MsgObtained (Z.of_nat (length page))
                            (Z.of_nat (held + length page)))
      :: pages_log (offset + 100) (held + length page) rest
  end.

(** What the loop logs for a page of fewer than 100 records. *)
Definition last_page_log (offset : Z) (held : nat) (page : list json)
    : list event :=
  match page with
  | [] => [HttpGet offset 100; Print MsgNoMore]
  | _ => [HttpGet offset 100;
          Print (MsgObtained (Z.of_nat (length page))
                             (Z.of_nat (held + length page)))]
  end.

(** The offsets and limits of [n] successive requests from offset 0. *)
Definition page_requests (n : nat) : list (Z * Z) :=
  (λ i : nat, (100 * Z.of_nat i, 100)) <$> seq 0 n.

(** The input the loader expects: an array of objects, each with an
    integer [id]. *)
Definition expected_structure (doc : json) : bool :=
  match doc with
  | JArr teams =>
      forallb (λ team,
        match team with
        | JObj fields =>
            match Py.assoc "id" fields with
            | Some (JInt _) => true
            | _ => false
            end
        | _ => false
        end) teams
  | _ => false
  end.

(** ** Sample data *)

Module Sample.

Definition me : BalanceUpdater := init 1683930 10352455 "token" "equipos.json"
                                       "transacciones_agrupadas.json".

Definition fresh : state := State [] None.

Definition tx (ty : string) (uid : Z) : json :=
  JObj [("type", JStr ty); ("user", JObj [("id", JInt uid)])].

Definition teams12 : json := JArr [JObj [("id", JInt 1)]; JObj [("id", JInt 2)]].

Definition page (records : list json) : http_outcome :=
  Response 200 (Some (JObj [("data", JArr records)])).

(** Scenario A of the specification. *)
Definition scenario_a : world :=
  World (SourceJson teams12)
        (λ _ _, page [tx "transfer" 1; tx "market" 2])
        SinkOk.

(** One full page of 100 records, then nothing (Scenario D). *)
Definition scenario_d : world :=
  World (SourceJson teams12)
        (λ offset _, if (offset =? 0)%Z then page (replicate 100 (tx "transfer" 1))
                     else page [])
        SinkOk.

(** One full page, then the connection fails. *)
Definition second_page_down : world :=
  World (SourceJson teams12)
        (λ offset _, if (offset =? 0)%Z then page (replicate 100 (tx "transfer" 1))
                     else NoResponse)
        SinkOk.

(** The endpoint answers 300 with a well-formed, empty page. *)
Definition status_300 : world :=
  World (SourceJson teams12)
        (λ _ _, Response 300 (Some (JObj [("data", JArr [])])))
        SinkOk.

(** The team file holds string identifiers. *)
Definition string_ids : world :=
  World (SourceJson (JArr [JObj [("id", JStr "a")]]))
        (λ _ _, page [])
        SinkOk.

(** The disk fills up while the result is written. *)
Definition disk_full : world :=
  World (SourceJson teams12) (λ _ _, page [tx "transfer" 1]) SinkDumpFails.

(** The body has no [data] field. *)
Definition no_data_field : world :=
  World (SourceJson teams12)
        (λ _ _, Response 200 (Some (JObj [("status", JInt 200)])))
        SinkOk.

End Sample.

(** ** Further vocabulary *)

(** The team record has an [id], and it is the key [k]. *)
Definition team_id_is (team : json) (k : pykey) : Prop :=
  ∃ v, Py.getitem team "id" = Ok v ∧ Py.hash_key v = Ok k.

(** The record is filed under a key of [team_ids]. *)
Definition accepted (self : BalanceUpdater) (team_ids : gset pykey)
    (tx : json) : Prop :=
  match tx_key self tx with
  | Ok (Some k) => k ∈ team_ids
  | _ => False
  end.

Global Instance accepted_dec self team_ids tx :
  Decision (accepted self team_ids tx).
Proof. unfold accepted. destruct (tx_key self tx) as [[k|]|e]; apply _. Defined.

(** The number of records held in the buckets of a grouped result. *)
Definition stored (g : gmap pykey (list json)) : nat :=
  map_fold (λ _ bucket n, (length bucket + n)%nat) 0%nat g.

(** The records of all the buckets, one bucket after the other. *)
Definition all_records (g : gmap pykey (list json)) : list json :=
  concat ((map_to_list g).*2).

(** A response after which the loop stops with what it holds: accepted
    by [raise_for_status], with a JSON body whose [data] is falsy or has
    fewer than 100 items. *)
Definition short_page (r : http_outcome) : Prop :=
  ∃ status doc data,
    r = Response status (Some doc) ∧ raise_for_status status = false ∧
    Py.get_default doc "data" (JArr []) = Ok data ∧
    (Py.truthy data = false ∨ ∃ n, Py.len data = Ok n ∧ n < 100).

(** The requests of [n] successive pages from [offset]. *)
Definition page_requests_from (offset : Z) (n : nat) : list (Z * Z) :=
  (λ i : nat, (offset + 100 * Z.of_nat i, 100)) <$> seq 0 n.

(** A body the loop cannot read as a page: not an object, or an object
    whose [data] is a non-zero number or [true]. *)
Definition unreadable_body (doc : json) (e : exn) : Prop :=
  ((∀ fields, doc ≠ JObj fields) ∧ e = AttributeError) ∨
  (∃ fields data, doc = JObj fields ∧ Py.assoc "data" fields = Some data ∧
     (data = JBool true ∨ ∃ n, data = JInt n ∧ n ≠ 0) ∧ e = TypeError).

(** A team record the set comprehension raises [e] on: an object without
    [id], a value that is not an object, or an object whose [id] is a list
    or a dict. *)
Definition bad_team (team : json) (e : exn) : Prop :=
  (∃ fields, team = JObj fields ∧ Py.assoc "id" fields = None ∧ e = KeyError) ∨
  ((∀ fields, team ≠ JObj fields) ∧ e = TypeError) ∨
  (∃ fields v, team = JObj fields ∧ Py.assoc "id" fields = Some v ∧
     scalar v = false ∧ e = TypeError).

Module Fixture.

(** An endpoint that serves a full page at every offset. *)
Definition endless : world :=
  World (SourceJson Sample.teams12)
        (λ _ _, Sample.page (replicate 100 (Sample.tx "transfer" 1)))
        SinkOk.

(** The second team record has no [id]. *)
Definition team_without_id : world :=
  World (SourceJson (JArr [JObj [("id", JInt 1)]; JObj [("name", JStr "x")];
                           JObj [("id", JInt 3)]]))
        (api Sample.scenario_a) SinkOk.

(** The body is a JSON array, not an object. *)
Definition array_body : world :=
  World (SourceJson Sample.teams12)
        (λ _ _, Response 200 (Some (JArr [Sample.tx "transfer" 1])))
        SinkOk.

(** The team file is not UTF-8 text. *)
Definition latin1_team_file : world :=
  World SourceNotUtf8 (api Sample.scenario_a) SinkOk.

(** A record holds a code point that UTF-8 cannot encode. *)
Definition unencodable_record : world :=
  World (SourceJson Sample.teams12)
        (λ _ _, Sample.page [Sample.tx "transfer" 1]) SinkEncodeFails.

End Fixture.

(** ** The grouping pass over objects *)

(** The same method over the objects it is handed, to follow what it
    writes and what it leaves alone.  An object lives in a cell of the
    memory and is named by its address; a list holds the addresses of its
    items, so that a bucket and [transactions] share the records they
    hold.  A decoded record is kept whole in its cell. *)
Module Obj.

Definition addr : Type := nat.

Inductive cell : Type :=
  | CRecord (v : json)                      (* a decoded transaction *)
  | CList (items : list addr)               (* a list of references *)
  | CSet (members : list pykey)             (* a set, in the order its iterator visits *)
  | CDict (entries : list (pykey * addr)).  (* a dict, in insertion order *)

Record memory : Type := Memory {
  cells : list cell;
  console : list event
}.

(** [None]: a loop out of fuel, or an object of another kind than [run]
    hands over. *)
Definition H (A : Type) : Type := memory → option (res A * memory).

Global Instance H_ret : MRet H := λ A a m, Some (Ok a, m).
Global Instance H_bind : MBind H := λ A B k c m,
  match c m with
  | Some (Ok a, m') => k a m'
  | Some (Raise e, m') => Some (Raise e, m')
  | None => None
  end.

Definition stuck {A} : H A := λ _, None.
Definition throw {A} (r : res A) : H A := λ m, Some (r, m).
Definition say (ev : event) : H unit :=
  λ m, Some (Ok (), Memory (cells m) (console m ++ [ev])).

(** A new object, at the first free address. *)
Definition alloc (c : cell) : H addr :=
  λ m, Some (Ok (length (cells m)), Memory (cells m ++ [c]) (console m)).
Definition load (a : addr) : H cell :=
  λ m, match cells m !! a with
       | Some c => Some (Ok c, m)
       | None => None
       end.
Definition store (a : addr) (c : cell) : H unit :=
  λ m, Some (Ok (), Memory (<[ a := c ]> (cells m)) (console m)).

(** [d.get(k)] on the entries of a dict. *)
Fixpoint dict_get (entries : list (pykey * addr)) (k : pykey) : option addr :=
  match entries with
  | [] => None
  | (k', a) :: rest => if decide (k' = k) then Some a else dict_get rest k
  end.

(** [d[k] = a]: a present key keeps its place, a new one goes last. *)
Fixpoint dict_set (entries : list (pykey * addr)) (k : pykey) (a : addr)
    : list (pykey * addr) :=
  match entries with
  | [] => [(k, a)]
  | (k', a') :: rest =>
      if decide (k' = k) then (k', a) :: rest
      else (k', a') :: dict_set rest k a
  end.

(** The rounds of [{team_id: [] for team_id in team_ids}] from position
    [i] of the set's iterator, which raises when the set has changed
    size since the iteration began. *)
Fixpoint fill_buckets (fuel : nat) (grouped_data team_ids : addr)
    (size i : nat) : H unit :=
  match fuel with
  | O => stuck
  | S fuel' =>
      s ← load team_ids;
      match s with
      | CSet members =>
          if decide (length members = size) then
            match members !! i with
            | None => mret ()
            | Some team_id =>
                bucket ← alloc (CList []);
                d ← load grouped_data;
                match d with
                | CDict entries =>
                    store grouped_data
                          (CDict (dict_set entries team_id bucket));;
                    fill_buckets fuel' grouped_data team_ids size (S i)
                | _ => stuck
                end
            end
          else throw (Raise RuntimeError)
      | _ => stuck
      end
  end.

(** The rounds of [for tx in transactions] from position [i] of the
    list's iterator. *)
Fixpoint group_rounds (fuel : nat) (self : BalanceUpdater)
    (transactions grouped_data : addr) (i : nat) : H unit :=
  match fuel with
  | O => stuck
  | S fuel' =>
      l ← load transactions;
      match l with
      | CList items =>
          match items !! i with
          | None => mret ()
          | Some tx =>
              r ← load tx;
              match r with
              | CRecord v =>
                  key ← throw (tx_key self v);
                  match key with
                  | Some user_id =>
                      d ← load grouped_data;
                      match d with
                      | CDict entries =>
                          match dict_get entries user_id with
                          | Some bucket =>
                              b ← load bucket;
                              match b with
                              | CList held => store bucket (CList (held ++ [tx]))
                              | _ => stuck
                              end
                          | None => mret ()
                          end
                      | _ => stuck
                      end
                  | None => mret ()
                  end;;
                  group_rounds fuel' self transactions grouped_data (S i)
              | _ => stuck
              end
          end
      | _ => stuck
      end
  end.

(** [_group_transactions], returning the address of [grouped_data]. *)
Definition _group_transactions (self : BalanceUpdater) (fuel : nat)
    (transactions team_ids : addr) : H addr :=
  say (Print MsgGrouping);;
  grouped_data ← alloc (CDict []);
  s ← load team_ids;
  match s with
  | CSet members =>
      fill_buckets fuel grouped_data team_ids (length members) 0;;
      group_rounds fuel self transactions grouped_data 0;;
      mret grouped_data
  | _ => stuck
  end.

(** What is found by following the references from an address. *)
Definition read_record (h : list cell) (a : addr) : option json :=
  match h !! a with
  | Some (CRecord v) => Some v
  | _ => None
  end.

Definition read_list (h : list cell) (a : addr) : option (list json) :=
  match h !! a with
  | Some (CList items) => mapM (read_record h) items
  | _ => None
  end.

Definition read_dict (h : list cell) (d : addr)
    : option (list (pykey * list json)) :=
  match h !! d with
  | Some (CDict entries) =>
      mapM (λ kb, bucket ← read_list h kb.2; Some (kb.1, bucket)) entries
  | _ => None
  end.

(** The addresses of the records of [tvs] (address and value) that are
    filed under [k]. *)
Definition bucket_of (self : BalanceUpdater) (k : pykey)
    (tvs : list (addr * json)) : list addr :=
  (filter (λ av, filed_under self k av.2) tvs).*1.

(** What the rounds over the records [tvs] end with. *)
Fixpoint rounds_result (self : BalanceUpdater) (tvs : list (addr * json))
    : res unit :=
  match tvs with
  | [] => Ok ()
  | (a, v) :: rest =>
      match tx_key self v with
      | Ok _ => rounds_result self rest
      | Raise e => Raise e
      end
  end.

(** The entries of a dict whose keys [members] were inserted in this
    order with the values at the addresses [b], [b + 1], ... *)
Fixpoint entries_from (b : addr) (members : list pykey)
    : list (pykey * addr) :=
  match members with
  | [] => []
  | k :: rest => (k, b) :: entries_from (S b) rest
  end.

(** The memory after the buckets were created: what was there, then the
    dict, then the buckets. *)
Definition grouped_cells (h0 : list cell) (members : list pykey)
    (buckets : list (list addr)) : list cell :=
  h0 ++ CDict (entries_from (S (length h0)) members) :: (CList <$> buckets).

End Obj.

(** Three records, the list of them and a set of two teams, as [run]
    would hold them before the call. *)
Module ObjSample.

Definition memory : Obj.memory :=
  Obj.Memory [Obj.CRecord (Sample.tx "transfer" 1);
              Obj.CRecord (Sample.tx "market" 2);
              Obj.CRecord (Sample.tx "clauseIncrement" 1);
              Obj.CList [0; 1; 2]%nat;
              Obj.CSet [KInt 2; KInt 1]]
             [].

Definition transactions : Obj.addr := 3%nat.
Definition team_ids : Obj.addr := 4%nat.

End ObjSample.

(** Unfolds the operations of [M] so that a method body reduces. *)
Ltac unfold_M :=
  unfold mbind, M_bind, mret, M_ret, print, emit, set_output, lift, raise;
  simpl.

(** ** The grouping pass *)

Section grouping.
Context (self : BalanceUpdater).
Implicit Types (g : gmap pykey (list json)) (k : pykey) (tx : json).

Lemma group_step_lookup g g' tx k :
  group_step self g tx = Ok g' →
  g' !! k = (λ bucket, bucket ++ filter (filed_under self k) [tx]) <$> g !! k.
Proof.
  unfold group_step. intros Hstep.
  rewrite filter_cons, filter_nil.
  destruct (decide (filed_under self k tx)) as [Hk|Hk]; unfold filed_under in Hk.
  - rewrite Hk in Hstep. simpl in Hstep.
    destruct (g !! k) as [bucket|] eqn:Hg; injection Hstep as <-.
    + by rewrite lookup_insert_eq.
    + by rewrite Hg.
  - destruct (tx_key self tx) as [[k'|]|e]; simpl in Hstep; [| |done].
    + assert (k' ≠ k) by congruence.
      destruct (g !! k') as [bucket|]; injection Hstep as <-;
        rewrite ?lookup_insert_ne by done;
        destruct (g !! k); simpl; by rewrite ?app_nil_r.
    + injection Hstep as <-.
      destruct (g !! k); simpl; by rewrite ?app_nil_r.
Qed.

(** Every bucket that exists when the loop starts ends as itself followed
    by the records filed under its key, in the order of the list; no
    bucket is created. *)
Lemma group_loop_lookup txs : ∀ g g' k,
  group_loop self txs g = Ok g' →
  g' !! k = (λ bucket, bucket ++ filter (filed_under self k) txs) <$> g !! k.
Proof.
  induction txs as [|tx txs IH]; intros g g' k Hloop; simpl in Hloop.
  - injection Hloop as <-. rewrite filter_nil.
    destruct (g !! k); simpl; by rewrite ?app_nil_r.
  - destruct (group_step self g tx) as [g1|e] eqn:Hstep; simpl in Hloop; [|done].
    rewrite (IH _ _ k Hloop), (group_step_lookup _ _ _ k Hstep).
    rewrite <- option_fmap_compose.
    destruct (g !! k) as [bucket|]; simpl; [|done].
    f_equal. rewrite <- app_assoc. f_equal.
    change (tx :: txs) with ([tx] ++ txs). by rewrite filter_app.
Qed.

(** The loop raises only where the loop body raises on a record. *)
Lemma group_loop_total txs : ∀ g,
  Forall (λ tx, ∃ key, tx_key self tx = Ok key) txs →
  ∃ g', group_loop self txs g = Ok g'.
Proof.
  induction txs as [|tx txs IH]; intros g Hall; simpl; [by eexists|].
  apply Forall_cons in Hall as [[key Hkey] Hall].
  unfold group_step. rewrite Hkey. simpl.
  destruct key as [k|]; [destruct (g !! k)|]; simpl; by apply IH.
Qed.

Lemma group_loop_from_ids txs team_ids g k :
  group_loop self txs (gset_to_gmap [] team_ids) = Ok g →
  g !! k = if decide (k ∈ team_ids)
           then Some (filter (filed_under self k) txs) else None.
Proof.
  intros Hloop. rewrite (group_loop_lookup _ _ _ k Hloop).
  rewrite lookup_gset_to_gmap.
  destruct (decide (k ∈ team_ids)).
  - by rewrite option_guard_True.
  - by rewrite option_guard_False.
Qed.

Lemma group_transactions_inv txs team_ids g s s' :
  _group_transactions self txs team_ids s = Some (Ok g, s') →
  group_loop self txs (gset_to_gmap [] team_ids) = Ok g ∧
  s' = State (log s ++ [Print MsgGrouping]) (output s).
Proof.
  unfold _group_transactions. unfold_M.
  by intros [= -> <-].
Qed.

End grouping.

(** ** What the loop body does with a well-formed record *)

Section records.
Context (league user : Z) (tok inp out : string).
Lemma tx_key_well_formed tx :
  well_formed_tx tx = true → ∃ key, tx_key (init league user tok inp out) tx = Ok key.
Proof.
  destruct tx as [| | | | |fields]; try done. simpl.
  intros [Hty Hus]%andb_true_iff.
  unfold tx_key, Py.get, Py.get_default. simpl.
  destruct (default JNull (Py.assoc "user" fields)) as [| | | | |u];
    try done; simpl; [by eexists|].
  destruct u as [|f u]; simpl; [by eexists|].
  destruct (default JNull (Py.assoc "type" fields)); try done; simpl;
    try by eexists.
  case_bool_decide; simpl; [|by eexists].
  destruct (default JNull (Py.assoc "id" (f :: u))); try done; by eexists.
Qed.

Lemma tx_key_filed tx k :
  well_formed_tx tx = true → k ≠ KNone →
  tx_key (init league user tok inp out) tx = Ok (Some k) ↔ type_allowed tx ∧ user_id_is tx k.
Proof.
  intros Hwf Hk. split.
  - destruct tx as [| | | | |fields]; try done. simpl in Hwf.
    unfold tx_key, Py.get, Py.get_default. simpl.
    destruct (Py.assoc "user" fields) as [[| | | | |u]|] eqn:Hu; simpl; try done;
      try (by rewrite andb_false_r in Hwf).
    destruct u as [|f u]; simpl; [done|].
    destruct (Py.assoc "type" fields) as [[| | |ty| |]|] eqn:Hty; simpl; try done.
    case_bool_decide as Hin; simpl; [|done].
    destruct (Py.assoc "id" (f :: u)) as [v|] eqn:Hid; simpl.
    + destruct (Py.hash_key v) as [k'|] eqn:Hv; simpl; [|done].
      intros [= ->]. split.
      * by exists fields, ty.
      * by exists fields, (f :: u), v.
    + by intros [= <-].
  - intros [(fields & ty & -> & Hty & Hin) (fields' & u & v & [= <-] & Hu & Hid & Hv)].
    unfold tx_key, Py.get, Py.get_default. simpl.
    rewrite Hty, Hu. simpl.
    destruct u as [|f u]; [done|]. simpl.
    rewrite bool_decide_eq_true_2 by done. simpl.
    rewrite Hid. simpl. by rewrite Hv.
Qed.

End records.

(** ** The grouped result *)

(** C1.  Whenever the grouping pass produces a result, the keys of the
    result are exactly the team identifiers it was given: no key outside
    the set, no identifier without a key, and an identifier no record is
    filed under keeps the empty list. *)
Theorem grouped_keys_are_team_ids self txs team_ids g s s' :
  _group_transactions self txs team_ids s = Some (Ok g, s') →
  dom g = team_ids ∧
  ∀ k, k ∈ team_ids → Forall (λ tx, ¬ filed_under self k tx) txs →
       g !! k = Some [].
Proof.
  intros [Hloop _]%group_transactions_inv. split.
  - apply set_eq. intros k. rewrite elem_of_dom.
    rewrite (group_loop_from_ids _ _ _ _ k Hloop).
    destruct (decide (k ∈ team_ids)); split;
      first [done | by intros [? ?] | by eexists].
  - intros k Hk Hnone.
    rewrite (group_loop_from_ids _ _ _ _ k Hloop), decide_True by done.
    f_equal. clear Hloop.
    induction Hnone as [|tx txs' Hno _ IH]; [done|].
    by rewrite filter_cons_False.
Qed.

Lemma grouped_keys_are_team_ids_witness :
  let txs := [Sample.tx "transfer" 1; Sample.tx "ignored" 2] in
  let g : gmap pykey (list json) :=
    {[ KInt 1 := [Sample.tx "transfer" 1]; KInt 2 := [] ]} in
  _group_transactions Sample.me txs {[ KInt 1; KInt 2 ]} Sample.fresh
    = Some (Ok g, State [Print MsgGrouping] None) ∧
  dom g = {[ KInt 1; KInt 2 ]} ∧
  g !! KInt 2 = Some [].
Proof.
  intros txs g.
  assert (_group_transactions Sample.me txs {[ KInt 1; KInt 2 ]} Sample.fresh
          = Some (Ok g, State [Print MsgGrouping] None)) as Hrun
    by (vm_compute; reflexivity).
  split; [exact Hrun|].
  destruct (grouped_keys_are_team_ids _ _ _ _ _ _ Hrun) as [Hdom Hempty].
  split; [exact Hdom|].
  apply Hempty.
  - apply (bool_decide_unpack _); vm_compute; reflexivity.
  - repeat constructor; unfold filed_under; vm_compute; discriminate.
Defined.



(** C2, as the code has it.  Over well-formed transaction records, and
    with [None] not a team identifier, the grouping pass raises nothing, and a record ends in the
    bucket of a key exactly when its [type] is one of [transfer], [market],
    [clauseIncrement], that key is its nested [user.id], and the key is a
    team identifier; every other record is in no bucket. *)
Theorem record_is_appended_iff league user tok inp out txs team_ids s :
  Forall (λ tx, well_formed_tx tx = true) txs →
  KNone ∉ team_ids →
  ∃ g,
    _group_transactions (init league user tok inp out) txs team_ids s
      = Some (Ok g, State (log s ++ [Print MsgGrouping]) (output s)) ∧
    ∀ tx k, (∃ bucket, g !! k = Some bucket ∧ tx ∈ bucket) ↔
            tx ∈ txs ∧ type_allowed tx ∧ user_id_is tx k ∧ k ∈ team_ids.
Proof.
  intros Hwf Hnone.
  destruct (group_loop_total (init league user tok inp out) txs
              (gset_to_gmap [] team_ids)) as [g Hloop].
  { eapply Forall_impl; [exact Hwf|]. intros tx. apply tx_key_well_formed. }
  exists g. split.
  { unfold _group_transactions. unfold_M.
    by rewrite Hloop. }
  intros tx k. rewrite (group_loop_from_ids _ _ _ _ k Hloop).
  destruct (decide (k ∈ team_ids)) as [Hk|Hk].
  - assert (k ≠ KNone) as Hk' by (by intros ->).
    split.
    + intros (bucket & [= <-] & [Hfiled Hin]%list_elem_of_filter).
      assert (well_formed_tx tx = true) as Hwf'
        by (by eapply Forall_forall in Hwf).
      apply (tx_key_filed league user tok inp out) in Hfiled as [? ?]; done.
    + intros (Hin & Hty & Hid & _).
      assert (well_formed_tx tx = true) as Hwf'
        by (by eapply Forall_forall in Hwf).
      eexists. split; [done|]. apply list_elem_of_filter. split; [|done].
      by apply (tx_key_filed league user tok inp out).
  - split; [by intros (? & ? & ?)|by intros (? & ? & ? & ?)].
Qed.

Lemma record_is_appended_iff_witness :
  let txs := [Sample.tx "transfer" 1; Sample.tx "ignored" 2;
              Sample.tx "market" 999;
              JObj [("type", JStr "market"); ("user", JObj [("name", JStr "x")])]] in
  Forall (λ tx, well_formed_tx tx = true) txs ∧
  (KNone ∉ ({[ KInt 1; KInt 2 ]} : gset pykey)) ∧
  ∃ g,
    _group_transactions Sample.me txs {[ KInt 1; KInt 2 ]} Sample.fresh
      = Some (Ok g, State [Print MsgGrouping] None) ∧
    ∀ tx k, (∃ bucket, g !! k = Some bucket ∧ tx ∈ bucket) ↔
            tx ∈ txs ∧ type_allowed tx ∧ user_id_is tx k ∧
            k ∈ ({[ KInt 1; KInt 2 ]} : gset pykey).
Proof.
  intros txs.
  assert (Forall (λ tx, well_formed_tx tx = true) txs) as Hwf
    by (repeat constructor).
  assert (KNone ∉ ({[ KInt 1; KInt 2 ]} : gset pykey)) as Hnone
    by (apply (bool_decide_unpack _); vm_compute; reflexivity).
  split; [exact Hwf|]. split; [exact Hnone|].
  exact (record_is_appended_iff 1683930 10352455 "token" "equipos.json"
           "transacciones_agrupadas.json" txs {[ KInt 1; KInt 2 ]}
           Sample.fresh Hwf Hnone).
Defined.

(** C2 as stated fails, in two ways.  A record without [user.id] is not
    discarded when [None] is a team identifier (a team record with a null
    [id]): its missing id reads as [None] and the record is filed under
    that key.  And a record whose [user] is a string is not discarded
    without error: the pass raises [AttributeError]. *)
Lemma record_without_user_id_is_filed_under_none :
  let tx := JObj [("type", JStr "market"); ("user", JObj [("name", JStr "x")])] in
  let bob := JObj [("type", JStr "market"); ("user", JStr "bob")] in
  (∀ k, ¬ user_id_is tx k) ∧
  _load_team_ids Sample.me
      (World (SourceJson (JArr [JObj [("id", JNull)]; JObj [("id", JInt 1)]]))
             (api Sample.scenario_a) SinkOk) Sample.fresh
    = Some (Ok {[ KNone; KInt 1 ]}, Sample.fresh) ∧
  _group_transactions Sample.me [tx] {[ KNone; KInt 1 ]} Sample.fresh
    = Some (Ok {[ KNone := [tx]; KInt 1 := [] ]},
            State [Print MsgGrouping] None) ∧
  _group_transactions Sample.me [bob] {[ KInt 1 ]} Sample.fresh
    = Some (Raise AttributeError, State [Print MsgGrouping] None).
Proof.
  intros tx bob. split; [|split; [|split]].
  - intros k (fields & user & v & [= <-] & Hu & Hid & _).
    vm_compute in Hu. injection Hu as <-. vm_compute in Hid. discriminate.
  - vm_compute. reflexivity.
  - vm_compute. reflexivity.
  - vm_compute. reflexivity.
Qed.

(** ** The pagination loop *)

Lemma requests_app l1 l2 : requests (l1 ++ l2) = requests l1 ++ requests l2.
Proof.
  induction l1 as [|[m|o l] l1 IH]; simpl; [done|done|]. by rewrite IH.
Qed.

Lemma printed_app l1 l2 : printed (l1 ++ l2) = printed l1 ++ printed l2.
Proof.
  induction l1 as [|[m|o l] l1 IH]; simpl; [done| |done]. by rewrite IH.
Qed.

Lemma requests_pages_log full : ∀ offset held,
  requests (pages_log offset held full)
  = (λ i : nat, (offset + 100 * Z.of_nat i, 100)) <$> seq 0 (length full).
Proof.
  induction full as [|page full IH]; intros offset held; simpl; [done|].
  rewrite IH. f_equal; [f_equal; lia|].
  rewrite <- (fmap_S_seq 0), <- list_fmap_compose.
  apply list_fmap_ext. intros _ i _. simpl. f_equal. lia.
Qed.

Lemma requests_last_page_log offset held page :
  requests (last_page_log offset held page) = [(offset, 100)].
Proof. by destruct page. Qed.

Section pagination.
Context (w : world).
Implicit Types (offset : Z) (page acc : list json) (s : state).

(** A page of 100 records or more: retained, and the loop goes on at
    [offset + 100]. *)
Lemma fetch_loop_full_page offset page acc fuel s :
  serves w offset page → (100 ≤ length page)%nat →
  fetch_loop (S fuel) w offset 100 acc s
  = fetch_loop fuel w (offset + 100) 100 (acc ++ page)
      (State (log s ++ pages_log offset (length acc) [page]) (output s)).
Proof.
  intros (status & fields & Hapi & Hstatus & Hdata) Hlen.
  simpl. unfold_M.
  rewrite Hapi, Hstatus. unfold Py.get_default. rewrite Hdata. simpl.
  destruct page as [|tx page]; [simpl in Hlen; lia|].
  cbn [Py.truthy negb].
  rewrite (proj2 (Z.ltb_ge _ _)) by lia.
  cbn [log output]. rewrite <- app_assoc, length_app. reflexivity.
Qed.

(** A page of fewer than 100 records: retained, and the loop stops; with
    no record at all nothing is retained. *)
Lemma fetch_loop_short_page offset page acc fuel s :
  serves w offset page → (length page < 100)%nat →
  fetch_loop (S fuel) w offset 100 acc s
  = Some (Ok (Some (acc ++ page)),
          State (log s ++ last_page_log offset (length acc) page) (output s)).
Proof.
  intros (status & fields & Hapi & Hstatus & Hdata) Hlen.
  simpl. unfold_M.
  rewrite Hapi, Hstatus. unfold Py.get_default. rewrite Hdata. simpl.
  destruct page as [|tx page].
  - simpl. by rewrite app_nil_r, <- app_assoc.
  - cbn [Py.truthy negb].
    rewrite (proj2 (Z.ltb_lt _ _)) by lia.
    cbn [log output]. rewrite <- app_assoc, length_app. reflexivity.
Qed.

(** A request that fails: the loop returns [None] at once. *)
Lemma fetch_loop_failure offset acc fuel s :
  transport_failure (api w offset 100) →
  fetch_loop (S fuel) w offset 100 acc s
  = Some (Ok None,
          State (log s ++ [HttpGet offset 100; Print MsgApiError]) (output s)).
Proof.
  intros Hfail.
  simpl. unfold_M.
  destruct (api w offset 100) as [|status body]; simpl.
  - by rewrite <- app_assoc.
  - destruct Hfail as [Hstatus| ->].
    + unfold raise_for_status.
      rewrite (proj2 (Z.leb_le _ _)), (proj2 (Z.ltb_lt _ _)) by lia.
      simpl. by rewrite <- app_assoc.
    + destruct (raise_for_status status); simpl; by rewrite <- app_assoc.
Qed.

(** Through a run of full pages. *)
Lemma fetch_loop_full_pages full : ∀ offset acc fuel s,
  (∀ (i : nat) page, full !! i = Some page →
     serves w (offset + 100 * Z.of_nat i) page ∧ (100 ≤ length page)%nat) →
  fetch_loop (length full + fuel) w offset 100 acc s
  = fetch_loop fuel w (offset + 100 * Z.of_nat (length full)) 100
      (acc ++ concat full)
      (State (log s ++ pages_log offset (length acc) full) (output s)).
Proof.
  induction full as [|page full IH]; intros offset acc fuel s Hfull.
  - simpl. rewrite Z.add_0_r, !app_nil_r. by destruct s.
  - destruct (Hfull 0%nat page eq_refl) as [Hserves Hlen].
    rewrite Z.add_0_r in Hserves.
    change (length (page :: full) + fuel)%nat with (S (length full + fuel)).
    rewrite (fetch_loop_full_page _ _ _ _ _ Hserves Hlen).
    rewrite IH.
    + replace (offset + 100 * Z.of_nat (length (page :: full)))
        with (offset + 100 + 100 * Z.of_nat (length full))
        by (cbn [length]; lia).
      cbn [log output pages_log concat].
      by rewrite <- !app_assoc, length_app.
    + intros i page' Hi. destruct (Hfull (S i) page' Hi) as [Hs Hl].
      split; [|done].
      replace (offset + 100 + 100 * Z.of_nat i)
        with (offset + 100 * Z.of_nat (S i)) by lia. done.
Qed.

End pagination.

Lemma length_concat_sum {A} (ls : list (list A)) :
  length (concat ls) = sum_list (length <$> ls).
Proof.
  induction ls as [|l ls IH]; simpl; [done|]. by rewrite length_app, IH.
Qed.

Lemma page_requests_S n :
  page_requests (S n) = page_requests n ++ [(100 * Z.of_nat n, 100)].
Proof. unfold page_requests. by rewrite seq_S, fmap_app. Qed.

Lemma requests_pages_log_0 held full :
  requests (pages_log 0 held full) = page_requests (length full).
Proof. apply requests_pages_log. Qed.

(** The loop never touches the output file. *)
Lemma fetch_loop_output w fuel : ∀ offset limit acc s r s',
  fetch_loop fuel w offset limit acc s = Some (r, s') → output s' = output s.
Proof.
  induction fuel as [|fuel IH]; intros offset limit acc s r s'; [done|].
  simpl. unfold_M.
  destruct (api w offset limit) as [|status [doc|]]; simpl;
    [by intros [= <- <-]| |destruct (raise_for_status status); by intros [= <- <-]].
  destruct (raise_for_status status); simpl; [by intros [= <- <-]|].
  destruct (Py.get_default doc "data" (JArr [])) as [data|e]; simpl;
    [|by intros [= <- <-]].
  destruct (Py.truthy data); simpl; [|by intros [= <- <-]].
  destruct (Py.iter data) as [items|e]; simpl; [|by intros [= <- <-]].
  destruct (Py.len data) as [n|e]; simpl; [|by intros [= <- <-]].
  destruct (n <? limit)%Z; [by intros [= <- <-]|].
  intros Hrest. by apply IH in Hrest.
Qed.

(** C3.  When the endpoint serves full pages (100 records or more) and then
    a page of fewer than 100 records, the loop requests offset 0, 100, 200,
    ... with limit 100, one request per page up to the short page and none
    after it, and returns the pages concatenated in page order, the short
    page included (nothing is added when it is empty); the length of the
    result is the sum of the lengths of the pages fetched. *)
Theorem pagination_accumulates_pages self w (full : list (list json))
    (last : list json) fuel s :
  (∀ (i : nat) page, full !! i = Some page →
     serves w (100 * Z.of_nat i) page ∧ (100 ≤ length page)%nat) →
  serves w (100 * Z.of_nat (length full)) last →
  (length last < 100)%nat →
  (length full < fuel)%nat →
  ∃ s',
    _fetch_all_transactions self w fuel s
      = Some (Ok (Some (concat full ++ last)), s') ∧
    requests (log s') = requests (log s) ++ page_requests (S (length full)) ∧
    output s' = output s ∧
    length (concat full ++ last)
      = (sum_list (length <$> full) + length last)%nat.
Proof.
  intros Hfull Hlast Hshort Hfuel.
  destruct fuel as [|fuel]; [lia|].
  replace (S fuel) with (length full + S (fuel - length full))%nat by lia.
  eexists. split; [|split; [|split]].
  - unfold _fetch_all_transactions. unfold_M.
    rewrite fetch_loop_full_pages by done.
    rewrite (fetch_loop_short_page _ _ last) by done.
    reflexivity.
  - simpl. rewrite <- !app_assoc, !requests_app. simpl.
    rewrite requests_pages_log_0, requests_last_page_log.
    by rewrite page_requests_S.
  - done.
  - by rewrite length_app, length_concat_sum.
Qed.

Lemma pagination_accumulates_pages_witness :
  let first := replicate 100 (Sample.tx "transfer" 1) in
  serves Sample.scenario_d 0 first ∧
  serves Sample.scenario_d 100 [] ∧
  ∃ s',
    _fetch_all_transactions Sample.me Sample.scenario_d 2 Sample.fresh
      = Some (Ok (Some (concat [first] ++ [])), s') ∧
    requests (log s') = [(0, 100); (100, 100)] ∧
    output s' = None ∧
    length (concat [first] ++ []) = 100%nat.
Proof.
  intros first.
  assert (serves Sample.scenario_d 0 first) as H0
    by (by exists 200, [("data", JArr first)]).
  assert (serves Sample.scenario_d 100 []) as H1
    by (by exists 200, [("data", JArr [])]).
  split; [exact H0|]. split; [exact H1|].
  apply (pagination_accumulates_pages Sample.me Sample.scenario_d
           [first] [] 2 Sample.fresh).
  - intros [|[|i]] page [=]. subst page. split; [exact H0|]. vm_compute. lia.
  - exact H1.
  - simpl. lia.
  - simpl. lia.
Defined.

(** C9.  A response whose body is an object without a [data] field, or
    with a null [data], ends the pagination as an empty page does: the
    loop stops and returns what it has accumulated, with the end-of-data
    message and not the error message. *)
Theorem missing_data_ends_pagination w offset status fields acc fuel s :
  api w offset 100 = Response status (Some (JObj fields)) →
  raise_for_status status = false →
  Py.assoc "data" fields = None ∨ Py.assoc "data" fields = Some JNull →
  fetch_loop (S fuel) w offset 100 acc s
    = Some (Ok (Some acc),
            State (log s ++ [HttpGet offset 100; Print MsgNoMore]) (output s)) ∧
  ∀ w', serves w' offset [] →
    fetch_loop (S fuel) w' offset 100 acc s
    = fetch_loop (S fuel) w offset 100 acc s.
Proof.
  intros Hapi Hstatus Hdata.
  assert (fetch_loop (S fuel) w offset 100 acc s
          = Some (Ok (Some acc),
                  State (log s ++ [HttpGet offset 100; Print MsgNoMore])
                        (output s))) as Hend.
  { simpl. unfold_M.
    rewrite Hapi, Hstatus. unfold Py.get_default.
    destruct Hdata as [-> | ->]; simpl; by rewrite <- app_assoc. }
  split; [exact Hend|].
  intros w' Hempty. rewrite Hend.
  rewrite (fetch_loop_short_page w' offset []) by (done || simpl; lia).
  by rewrite app_nil_r.
Qed.

Lemma missing_data_ends_pagination_witness :
  let held := [Sample.tx "transfer" 1] in
  fetch_loop 1 Sample.no_data_field 100 100 held Sample.fresh
    = Some (Ok (Some held), State [HttpGet 100 100; Print MsgNoMore] None) ∧
  ∀ w', serves w' 100 [] →
    fetch_loop 1 w' 100 100 held Sample.fresh
    = fetch_loop 1 Sample.no_data_field 100 100 held Sample.fresh.
Proof.
  intros held.
  apply (missing_data_ends_pagination Sample.no_data_field 100 200
           [("status", JInt 200)] held 0 Sample.fresh).
  - reflexivity.
  - reflexivity.
  - left. reflexivity.
Defined.

(** ** The whole run *)

Lemma load_team_ids_json self w teams s :
  input_source w = SourceJson teams →
  _load_team_ids self w s = Some (items ← Py.iter teams; id_set items ∅, s).
Proof. unfold _load_team_ids. by intros ->. Qed.

(** The loader never touches the output file and requests nothing. *)
Lemma load_team_ids_quiet self w s r s' :
  _load_team_ids self w s = Some (r, s') →
  output s' = output s ∧ requests (log s') = requests (log s).
Proof.
  unfold _load_team_ids.
  destruct (input_source w); unfold mbind, M_bind, print, emit, raise, lift;
    simpl; intros [= <- <-]; simpl; rewrite ?requests_app, ?app_nil_r; done.
Qed.

(** The run up to the call of [_save_results]. *)
Lemma run_reaches_save self w fuel s team_ids s1 txs s2 g :
  _load_team_ids self w s = Some (Ok team_ids, s1) →
  team_ids ≠ ∅ →
  _fetch_all_transactions self w fuel s1 = Some (Ok (Some txs), s2) →
  group_loop self txs (gset_to_gmap [] team_ids) = Ok g →
  run self w fuel s
  = _save_results self w g (State (log s2 ++ [Print MsgGrouping]) (output s2)).
Proof.
  intros Hload Hne Hfetch Hgroup.
  unfold run, mbind at 1, M_bind at 1. rewrite Hload.
  rewrite decide_False by done.
  unfold mbind at 1, M_bind at 1. rewrite Hfetch.
  unfold mbind at 1, M_bind at 1.
  unfold _group_transactions. unfold_M.
  by rewrite Hgroup.
Qed.

(** C4, as the code has it.  When a page request gets no response, a
    response with status 4xx or 5xx, or a body that is not JSON, after any
    number of full pages, [_fetch_all_transactions] returns [None] (the
    pages held are dropped) and the run ends in the state the fetch left:
    every offset up to the failing one was requested once and nothing
    after it, nothing was grouped or saved, the output file is as before. *)
Theorem transport_failure_aborts_run self w teams team_ids
    (full : list (list json)) fuel s :
  input_source w = SourceJson teams →
  (items ← Py.iter teams; id_set items ∅) = Ok team_ids →
  team_ids ≠ ∅ →
  (∀ (i : nat) page, full !! i = Some page →
     serves w (100 * Z.of_nat i) page ∧ (100 ≤ length page)%nat) →
  transport_failure (api w (100 * Z.of_nat (length full)) 100) →
  (length full < fuel)%nat →
  ∃ s',
    _fetch_all_transactions self w fuel s = Some (Ok None, s') ∧
    run self w fuel s = Some (Ok (), s') ∧
    requests (log s') = requests (log s) ++ page_requests (S (length full)) ∧
    printed (log s')
      = printed (log s) ++ MsgStartFetch :: printed (pages_log 0 0 full)
        ++ [MsgApiError] ∧
    output s' = output s.
Proof.
  intros Hsrc Hids Hne Hfull Hfail Hfuel.
  destruct fuel as [|fuel]; [lia|].
  replace (S fuel) with (length full + S (fuel - length full))%nat by lia.
  assert (_fetch_all_transactions self w
            (length full + S (fuel - length full)) s
          = Some (Ok None,
                  State ((log s ++ [Print MsgStartFetch])
                           ++ pages_log 0 0 full
                           ++ [HttpGet (100 * Z.of_nat (length full)) 100;
                               Print MsgApiError])
                        (output s))) as Hfetch.
  { unfold _fetch_all_transactions. unfold_M.
    rewrite fetch_loop_full_pages by done.
    rewrite fetch_loop_failure by done.
    simpl. by rewrite <- !app_assoc. }
  eexists. split; [exact Hfetch|]. split; [|split; [|split]].
  - unfold run, mbind at 1, M_bind at 1.
    rewrite (load_team_ids_json _ _ _ _ Hsrc), Hids.
    rewrite decide_False by done.
    unfold mbind at 1, M_bind at 1. by rewrite Hfetch.
  - simpl. rewrite !requests_app. simpl.
    rewrite requests_pages_log_0, app_nil_r. by rewrite page_requests_S.
  - simpl. rewrite !printed_app. simpl. by rewrite <- app_assoc.
  - done.
Qed.

Lemma transport_failure_aborts_run_witness :
  let first := replicate 100 (Sample.tx "transfer" 1) in
  transport_failure (api Sample.second_page_down 100 100) ∧
  ∃ s',
    _fetch_all_transactions Sample.me Sample.second_page_down 2 Sample.fresh
      = Some (Ok None, s') ∧
    run Sample.me Sample.second_page_down 2 Sample.fresh = Some (Ok (), s') ∧
    requests (log s') = [(0, 100); (100, 100)] ∧
    printed (log s') = [MsgStartFetch; MsgObtained 100 100; MsgApiError] ∧
    output s' = None.
Proof.
  intros first.
  assert (transport_failure (api Sample.second_page_down 100 100)) as Hdown
    by exact I.
  split; [exact Hdown|].
  apply (transport_failure_aborts_run Sample.me Sample.second_page_down
           Sample.teams12 {[ KInt 1; KInt 2 ]} [first] 2 Sample.fresh).
  - reflexivity.
  - vm_compute. reflexivity.
  - apply (bool_decide_unpack _). vm_compute. reflexivity.
  - intros [|[|i]] page [=]. subst page. split.
    + by exists 200, [("data", JArr first)].
    + vm_compute. lia.
  - exact Hdown.
  - simpl. lia.
Defined.

(** C4 as stated fails: a response with status 300 is outside 2xx, yet
    its page is taken as served, the records are grouped and the output
    file is written. *)
Lemma status_300_is_not_a_failure :
  transport_failure_non_2xx (api Sample.status_300 0 100) ∧
  run Sample.me Sample.status_300 1 Sample.fresh
    = Some (Ok (),
            State [Print MsgStartFetch; HttpGet 0 100; Print MsgNoMore;
                   Print MsgGrouping; Print MsgSaved]
                  (Some (Dumped {[ KInt 1 := []; KInt 2 := [] ]}))).
Proof.
  split.
  - left. lia.
  - vm_compute. reflexivity.
Qed.

(** C5, as the code has it.  With the input file missing, or present as
    UTF-8 text that is not valid JSON ([json.JSONDecodeError]), the run
    prints the matching diagnostic and returns: no request is made and
    the output file is as before, whatever the endpoint and the sink
    would have done, and for any fuel. *)
Theorem missing_or_invalid_source_aborts self endpoint snk fuel s :
  run self (World SourceMissing endpoint snk) fuel s
    = Some (Ok (), State (log s ++ [Print MsgInputNotFound]) (output s)) ∧
  run self (World SourceNotJson endpoint snk) fuel s
    = Some (Ok (), State (log s ++ [Print MsgInputNotJson]) (output s)).
Proof.
  split; unfold run, _load_team_ids, mbind, M_bind, print, emit; simpl;
    by rewrite decide_True.
Qed.

(** C5 as stated fails: a team file that is valid JSON but holds string
    identifiers is not of the expected structure, yet the run goes on to
    the endpoint and writes the output file, with no diagnostic. *)
Lemma string_ids_are_accepted :
  (∃ doc, input_source Sample.string_ids = SourceJson doc ∧
          expected_structure doc = false) ∧
  run Sample.me Sample.string_ids 1 Sample.fresh
    = Some (Ok (),
            State [Print MsgStartFetch; HttpGet 0 100; Print MsgNoMore;
                   Print MsgGrouping; Print MsgSaved]
                  (Some (Dumped {[ KStr "a" := [] ]}))).
Proof.
  split.
  - by eexists.
  - vm_compute. reflexivity.
Qed.

(** C10.  With a team file that is an empty JSON array the loader returns
    the empty set without a word and the run returns at once, the state
    untouched.  The empty array, the missing file and the file that is not
    JSON all end the same way: the loader returns the empty set, the run
    returns after the loader, no request is made and the output file is
    as it was. *)
Theorem empty_team_list_aborts self endpoint snk fuel s :
  _load_team_ids self (World (SourceJson (JArr [])) endpoint snk) s
    = Some (Ok ∅, s) ∧
  run self (World (SourceJson (JArr [])) endpoint snk) fuel s
    = Some (Ok (), s) ∧
  Forall (λ src,
      ∃ s', _load_team_ids self (World src endpoint snk) s = Some (Ok ∅, s') ∧
            run self (World src endpoint snk) fuel s = Some (Ok (), s') ∧
            requests (log s') = requests (log s) ∧
            output s' = output s)
    [SourceJson (JArr []); SourceMissing; SourceNotJson].
Proof.
  split; [done|]. split.
  - unfold run, _load_team_ids, mbind, M_bind, lift; simpl.
    by rewrite decide_True.
  - repeat apply Forall_cons_2; [| | |apply Forall_nil_2];
      eexists; (split; [reflexivity|]);
      unfold run, _load_team_ids, mbind, M_bind, print, emit, lift; simpl;
      rewrite decide_True by done; rewrite ?requests_app, ?app_nil_r; done.
Qed.

(** C8, as the code has it.  When the run reaches [_save_results] and the
    sink fails with an [IOError], the run prints the write error and
    returns; the grouped result is stored nowhere.  The output file is
    left as it was when it cannot be opened, and is left truncated when a
    write fails after the file was opened. *)
Theorem sink_failure_loses_result self w fuel s team_ids s1 txs s2 g :
  _load_team_ids self w s = Some (Ok team_ids, s1) →
  team_ids ≠ ∅ →
  _fetch_all_transactions self w fuel s1 = Some (Ok (Some txs), s2) →
  group_loop self txs (gset_to_gmap [] team_ids) = Ok g →
  sink w = SinkOpenFails ∨ sink w = SinkDumpFails →
  ∃ s',
    run self w fuel s = Some (Ok (), s') ∧
    log s' = log s2 ++ [Print MsgGrouping; Print MsgWriteError] ∧
    output s' = match sink w with
                | SinkOpenFails => output s
                | _ => Some Truncated
                end.
Proof.
  intros Hload Hne Hfetch Hgroup Hsink.
  rewrite (run_reaches_save _ _ _ _ _ _ _ _ _ Hload Hne Hfetch Hgroup).
  apply load_team_ids_quiet in Hload as [Hout1 _].
  unfold _fetch_all_transactions, print, emit, mbind, M_bind in Hfetch.
  simpl in Hfetch. apply fetch_loop_output in Hfetch. simpl in Hfetch.
  unfold _save_results, set_output, print, emit, mbind, M_bind.
  destruct Hsink as [-> | ->]; simpl; eexists;
    (split; [reflexivity|]); simpl; rewrite <- ?app_assoc;
    (split; [done|]); congruence.
Qed.

Lemma sink_failure_loses_result_witness :
  let a := Sample.tx "transfer" 1 in
  (sink Sample.disk_full = SinkOpenFails ∨
   sink Sample.disk_full = SinkDumpFails) ∧
  ∃ s',
    run Sample.me Sample.disk_full 1 Sample.fresh = Some (Ok (), s') ∧
    log s' = [Print MsgStartFetch; HttpGet 0 100; Print (MsgObtained 1 1)]
             ++ [Print MsgGrouping; Print MsgWriteError] ∧
    output s' = Some Truncated.
Proof.
  intros a.
  assert (sink Sample.disk_full = SinkOpenFails ∨
          sink Sample.disk_full = SinkDumpFails) as Hsink
    by (right; reflexivity).
  split; [exact Hsink|].
  apply (sink_failure_loses_result Sample.me Sample.disk_full 1 Sample.fresh
           {[ KInt 1; KInt 2 ]} Sample.fresh [a]
           (State [Print MsgStartFetch; HttpGet 0 100; Print (MsgObtained 1 1)]
                  None)
           {[ KInt 1 := [a]; KInt 2 := [] ]}).
  - vm_compute. reflexivity.
  - apply (bool_decide_unpack _). vm_compute. reflexivity.
  - vm_compute. reflexivity.
  - vm_compute. reflexivity.
  - exact Hsink.
Defined.

(** C8 as stated fails: when the disk fills up during the dump, the
    output file exists after the run, created by [open] and cut short,
    although there was none before. *)
Lemma failed_dump_leaves_a_file :
  sink Sample.disk_full ≠ SinkOk ∧
  output Sample.fresh = None ∧
  run Sample.me Sample.disk_full 1 Sample.fresh
    = Some (Ok (),
            State [Print MsgStartFetch; HttpGet 0 100; Print (MsgObtained 1 1);
                   Print MsgGrouping; Print MsgWriteError]
                  (Some Truncated)).
Proof.
  split; [discriminate|]. split; [reflexivity|].
  vm_compute. reflexivity.
Qed.

(** ** The scenarios of the specification *)

(** Scenario A: two teams, one page of two records. *)
Example scenario_a_run :
  run Sample.me Sample.scenario_a 1 Sample.fresh
  = Some (Ok (),
          State [Print MsgStartFetch; HttpGet 0 100; Print (MsgObtained 2 2);
                 Print MsgGrouping; Print MsgSaved]
                (Some (Dumped {[ KInt 1 := [Sample.tx "transfer" 1];
                                 KInt 2 := [Sample.tx "market" 2] ]}))).
Proof. vm_compute. reflexivity. Qed.

(** Scenario B: a record of a type that is not allowed is dropped and the
    bucket of its user stays empty. *)
Example scenario_b_group :
  group_loop Sample.me [Sample.tx "ignored" 1] (gset_to_gmap [] {[ KInt 1; KInt 2 ]})
  = Ok {[ KInt 1 := []; KInt 2 := [] ]}.
Proof. vm_compute. reflexivity. Qed.

(** Scenario C: a record of a user that is not a team is dropped. *)
Example scenario_c_group :
  group_loop Sample.me [Sample.tx "transfer" 999] (gset_to_gmap [] {[ KInt 1; KInt 2 ]})
  = Ok {[ KInt 1 := []; KInt 2 := [] ]}.
Proof. vm_compute. reflexivity. Qed.

(** Scenario D: a page of exactly 100 records, then an empty page: two
    requests, the 100 records kept. *)
Example scenario_d_fetch :
  _fetch_all_transactions Sample.me Sample.scenario_d 2 Sample.fresh
  = Some (Ok (Some (replicate 100 (Sample.tx "transfer" 1))),
          State [Print MsgStartFetch; HttpGet 0 100; Print (MsgObtained 100 100);
                 HttpGet 100 100; Print MsgNoMore] None).
Proof. vm_compute. reflexivity. Qed.

(** Scenario E: no input file. *)
Example scenario_e_run :
  run Sample.me (World SourceMissing (api Sample.scenario_a) SinkOk) 1 Sample.fresh
  = Some (Ok (), State [Print MsgInputNotFound] None).
Proof. vm_compute. reflexivity. Qed.

(** A file left by an earlier run stays when the output cannot be opened. *)
Example failed_open_keeps_the_old_file :
  run Sample.me (World (SourceJson Sample.teams12) (api Sample.scenario_a)
                       SinkOpenFails) 1 (State [] (Some Prior))
  = Some (Ok (),
          State [Print MsgStartFetch; HttpGet 0 100; Print (MsgObtained 2 2);
                 Print MsgGrouping; Print MsgWriteError]
                (Some Prior)).
Proof. vm_compute. reflexivity. Qed.

(** What is raised outside the [except] clauses ends the run as it is:
    a team without [id], a body that is not an object, a record whose
    [user] is a string. *)
Example uncaught_exceptions :
  run Sample.me (World (SourceJson (JArr [JObj [("name", JStr "x")]]))
                       (api Sample.scenario_a) SinkOk) 1 Sample.fresh
    = Some (Raise KeyError, Sample.fresh) ∧
  run Sample.me (World (SourceJson Sample.teams12)
                       (λ _ _, Response 200 (Some (JArr []))) SinkOk) 1 Sample.fresh
    = Some (Raise AttributeError, State [Print MsgStartFetch; HttpGet 0 100] None) ∧
  group_loop Sample.me [JObj [("type", JStr "market"); ("user", JStr "bob")]]
             (gset_to_gmap [] {[ KInt 1 ]})
    = Raise AttributeError.
Proof. repeat split; vm_compute; reflexivity. Qed.

(** ** More on the grouping pass *)

Lemma group_loop_app self a : ∀ b g0,
  group_loop self (a ++ b) g0
  = (g1 ← group_loop self a g0; group_loop self b g1).
Proof.
  induction a as [|tx a IH]; intros b g0; simpl; [done|].
  destruct (group_step self g0 tx) as [g1|e]; simpl; [apply IH|done].
Qed.

Lemma group_loop_raises self good : ∀ bad rest e g0,
  Forall (λ tx, ∃ key, tx_key self tx = Ok key) good →
  tx_key self bad = Raise e →
  group_loop self (good ++ bad :: rest) g0 = Raise e.
Proof.
  intros bad rest e g0 Hgood Hbad. rewrite group_loop_app.
  destruct (group_loop_total self good g0 Hgood) as [g1 ->]. simpl.
  unfold group_step. by rewrite Hbad.
Qed.

Lemma group_loop_ok_inv self txs : ∀ g0 g,
  group_loop self txs g0 = Ok g →
  Forall (λ tx, ∃ key, tx_key self tx = Ok key) txs.
Proof.
  induction txs as [|tx txs IH]; intros g0 g Hloop; [constructor|].
  simpl in Hloop.
  destruct (group_step self g0 tx) as [g1|e] eqn:Hstep; simpl in Hloop; [|done].
  constructor; [|by eapply IH].
  unfold group_step in Hstep.
  destruct (tx_key self tx) as [key|e]; [by eexists|done].
Qed.

(** X1.  Grouping is additive over concatenation: when two lists of
    transactions are each grouped for the same teams, grouping the first
    followed by the second also succeeds, and each bucket of the result is
    the bucket from the first list followed by the bucket from the
    second. *)
Theorem grouping_concatenation_appends_buckets self a b team_ids ga gb s sa sb :
  _group_transactions self a team_ids s = Some (Ok ga, sa) →
  _group_transactions self b team_ids s = Some (Ok gb, sb) →
  ∃ g s',
    _group_transactions self (a ++ b) team_ids s = Some (Ok g, s') ∧
    ∀ k, g !! k = (bucket_a ← ga !! k; bucket_b ← gb !! k;
                   Some (bucket_a ++ bucket_b)).
Proof.
  intros [Ha _]%group_transactions_inv [Hb _]%group_transactions_inv.
  destruct (group_loop_total self (a ++ b) (gset_to_gmap [] team_ids))
    as [g Hab].
  { apply Forall_app. split; by eapply group_loop_ok_inv. }
  exists g. eexists. split.
  { unfold _group_transactions. unfold_M. by rewrite Hab. }
  intros k.
  rewrite (group_loop_from_ids _ _ _ _ k Hab).
  rewrite (group_loop_from_ids _ _ _ _ k Ha), (group_loop_from_ids _ _ _ _ k Hb).
  destruct (decide (k ∈ team_ids)); [|done]. simpl. by rewrite filter_app.
Qed.

Lemma grouping_concatenation_appends_buckets_witness :
  let a := [Sample.tx "transfer" 1; Sample.tx "market" 2] in
  let b := [Sample.tx "clauseIncrement" 1; Sample.tx "ignored" 2] in
  let ga : gmap pykey (list json) :=
    {[ KInt 1 := [Sample.tx "transfer" 1]; KInt 2 := [Sample.tx "market" 2] ]} in
  let gb : gmap pykey (list json) :=
    {[ KInt 1 := [Sample.tx "clauseIncrement" 1]; KInt 2 := [] ]} in
  _group_transactions Sample.me a {[ KInt 1; KInt 2 ]} Sample.fresh
    = Some (Ok ga, State [Print MsgGrouping] None) ∧
  _group_transactions Sample.me b {[ KInt 1; KInt 2 ]} Sample.fresh
    = Some (Ok gb, State [Print MsgGrouping] None) ∧
  ∃ g s',
    _group_transactions Sample.me (a ++ b) {[ KInt 1; KInt 2 ]} Sample.fresh
      = Some (Ok g, s') ∧
    ∀ k, g !! k = (bucket_a ← ga !! k; bucket_b ← gb !! k;
                   Some (bucket_a ++ bucket_b)).
Proof.
  intros a b ga gb.
  assert (_group_transactions Sample.me a {[ KInt 1; KInt 2 ]} Sample.fresh
          = Some (Ok ga, State [Print MsgGrouping] None)) as Ha
    by (vm_compute; reflexivity).
  assert (_group_transactions Sample.me b {[ KInt 1; KInt 2 ]} Sample.fresh
          = Some (Ok gb, State [Print MsgGrouping] None)) as Hb
    by (vm_compute; reflexivity).
  split; [exact Ha|]. split; [exact Hb|].
  exact (grouping_concatenation_appends_buckets _ _ _ _ _ _ _ _ _ Ha Hb).
Defined.

(** X2.  The pass returns a result exactly when the loop body raises on
    none of the records, whatever the team identifiers are. *)
Theorem grouping_succeeds_iff self txs team_ids s :
  (∃ g s', _group_transactions self txs team_ids s = Some (Ok g, s')) ↔
  Forall (λ tx, ∃ key, tx_key self tx = Ok key) txs.
Proof.
  split.
  - intros (g & s' & [Hloop _]%group_transactions_inv).
    by eapply group_loop_ok_inv.
  - intros Hall.
    destruct (group_loop_total self txs (gset_to_gmap [] team_ids) Hall)
      as [g Hloop].
    exists g. eexists. unfold _group_transactions. unfold_M.
    by rewrite Hloop.
Qed.

(** X3.  The first record the loop body raises on ends the pass with that
    exception: the records after it are not looked at and the buckets
    filled so far are not returned. *)
Theorem first_bad_record_aborts_grouping self good bad rest e team_ids s :
  Forall (λ tx, ∃ key, tx_key self tx = Ok key) good →
  tx_key self bad = Raise e →
  _group_transactions self (good ++ bad :: rest) team_ids s
  = Some (Raise e, State (log s ++ [Print MsgGrouping]) (output s)).
Proof.
  intros Hgood Hbad. unfold _group_transactions. unfold_M.
  by rewrite (group_loop_raises self good bad rest e _ Hgood Hbad).
Qed.

Lemma first_bad_record_aborts_grouping_witness :
  let good := [Sample.tx "transfer" 1] in
  let bad := JObj [("type", JStr "market"); ("user", JStr "bob")] in
  _group_transactions Sample.me (good ++ bad :: [Sample.tx "market" 2])
    {[ KInt 1; KInt 2 ]} Sample.fresh
  = Some (Raise AttributeError, State [Print MsgGrouping] None).
Proof.
  intros good bad.
  apply (first_bad_record_aborts_grouping Sample.me good bad
           [Sample.tx "market" 2] AttributeError {[ KInt 1; KInt 2 ]}
           Sample.fresh).
  - repeat constructor. by eexists.
  - reflexivity.
Defined.

Lemma filter_none {A} (P : A → Prop) `{∀ x, Decision (P x)} (l : list A) :
  Forall (λ x, ¬ P x) l → filter P l = [].
Proof.
  induction 1 as [|x l Hx _ IH]; [done|]. by rewrite filter_cons_False.
Qed.

Lemma filter_all {A} (P : A → Prop) `{∀ x, Decision (P x)} (l : list A) :
  Forall P l → filter P l = l.
Proof.
  induction 1 as [|x l Hx _ IH]; [done|]. by rewrite filter_cons_True, IH.
Qed.

Lemma filed_under_functional self k k' tx :
  filed_under self k tx → filed_under self k' tx → k = k'.
Proof. unfold filed_under. congruence. Qed.

Lemma stored_commute (j1 j2 : pykey) (z1 z2 : list json) (y : nat) :
  (length z1 + (length z2 + y) = length z2 + (length z1 + y))%nat.
Proof. lia. Qed.

Lemma stored_append g k bucket tx :
  g !! k = Some bucket →
  stored (<[ k := bucket ++ [tx] ]> g) = S (stored g).
Proof.
  intros Hk. unfold stored.
  rewrite (map_fold_delete_L _ _ k bucket g); [|intros; lia|done].
  rewrite <- insert_delete_eq.
  rewrite map_fold_insert_L; [|intros; lia|apply lookup_delete_eq].
  rewrite length_app. simpl. lia.
Qed.

Lemma stored_empty_buckets (team_ids : gset pykey) :
  stored (gset_to_gmap [] team_ids) = 0%nat.
Proof.
  unfold stored.
  induction team_ids as [|k X Hk IH] using set_ind_L.
  - by rewrite gset_to_gmap_empty, map_fold_empty.
  - rewrite gset_to_gmap_union_singleton.
    rewrite map_fold_insert_L; [|intros; lia|].
    + by rewrite IH.
    + rewrite lookup_gset_to_gmap. by rewrite option_guard_False.
Qed.

Lemma group_step_dom self g g' tx :
  group_step self g tx = Ok g' → dom g' = dom g.
Proof.
  intros Hstep. apply set_eq. intros k. rewrite !elem_of_dom.
  rewrite (group_step_lookup self _ _ _ k Hstep).
  by rewrite fmap_is_Some.
Qed.

Lemma group_step_stored self g g' tx :
  group_step self g tx = Ok g' →
  stored g' = (stored g + length (filter (accepted self (dom g)) [tx]))%nat.
Proof.
  unfold group_step. rewrite filter_cons, filter_nil.
  destruct (decide (accepted self (dom g) tx)) as [Hacc|Hacc];
    unfold accepted in Hacc;
    destruct (tx_key self tx) as [[k|]|e]; simpl; try done.
  - apply elem_of_dom in Hacc as [bucket Hk]. rewrite Hk. intros [= <-].
    rewrite (stored_append _ _ _ _ Hk). lia.
  - destruct (g !! k) as [bucket|] eqn:Hk; intros [= <-]; [|lia].
    exfalso. apply Hacc. by apply elem_of_dom.
  - intros [= <-]. lia.
Qed.

Lemma group_loop_stored self txs : ∀ g g',
  group_loop self txs g = Ok g' →
  stored g' = (stored g + length (filter (accepted self (dom g)) txs))%nat.
Proof.
  induction txs as [|tx txs IH]; intros g g' Hloop; simpl in Hloop.
  - injection Hloop as <-. rewrite filter_nil. simpl. lia.
  - destruct (group_step self g tx) as [g1|e] eqn:Hstep; simpl in Hloop; [|done].
    rewrite (IH _ _ Hloop), (group_step_stored _ _ _ _ Hstep).
    rewrite (group_step_dom _ _ _ _ Hstep).
    change (tx :: txs) with ([tx] ++ txs).
    rewrite (filter_app _ [tx] txs), length_app. lia.
Qed.

(** X4.  No record is counted for two teams: in a grouped result a record
    that sits in the bucket of [k] and in the bucket of [k'] has [k = k']. *)
Theorem record_sits_in_one_bucket self txs team_ids g s s' :
  _group_transactions self txs team_ids s = Some (Ok g, s') →
  ∀ tx k k' bucket bucket',
    g !! k = Some bucket → g !! k' = Some bucket' →
    tx ∈ bucket → tx ∈ bucket' → k = k'.
Proof.
  intros [Hloop _]%group_transactions_inv tx k k' bucket bucket' Hk Hk'.
  rewrite (group_loop_from_ids _ _ _ _ k Hloop) in Hk.
  rewrite (group_loop_from_ids _ _ _ _ k' Hloop) in Hk'.
  destruct (decide (k ∈ team_ids)); [|done].
  destruct (decide (k' ∈ team_ids)); [|done].
  injection Hk as <-. injection Hk' as <-.
  intros [H1 _]%list_elem_of_filter [H2 _]%list_elem_of_filter.
  by eapply filed_under_functional.
Qed.

Lemma record_sits_in_one_bucket_witness :
  let a := Sample.tx "transfer" 1 in
  let b := Sample.tx "market" 2 in
  let g : gmap pykey (list json) := {[ KInt 1 := [a]; KInt 2 := [b] ]} in
  _group_transactions Sample.me [a; b] {[ KInt 1; KInt 2 ]} Sample.fresh
    = Some (Ok g, State [Print MsgGrouping] None) ∧
  ∀ tx k k' bucket bucket',
    g !! k = Some bucket → g !! k' = Some bucket' →
    tx ∈ bucket → tx ∈ bucket' → k = k'.
Proof.
  intros a b g.
  assert (_group_transactions Sample.me [a; b] {[ KInt 1; KInt 2 ]} Sample.fresh
          = Some (Ok g, State [Print MsgGrouping] None)) as Hrun
    by (vm_compute; reflexivity).
  split; [exact Hrun|].
  exact (record_sits_in_one_bucket _ _ _ _ _ _ Hrun).
Defined.

(** X5.  Nothing is duplicated and nothing accepted is lost: the buckets
    of a grouped result hold, all together, as many records as there are
    transactions filed under a team identifier, hence never more than the
    transactions given. *)
Theorem stored_records_are_the_accepted_ones self txs team_ids g s s' :
  _group_transactions self txs team_ids s = Some (Ok g, s') →
  stored g = length (filter (accepted self team_ids) txs) ∧
  (stored g ≤ length txs)%nat.
Proof.
  intros [Hloop _]%group_transactions_inv.
  assert (stored g = length (filter (accepted self team_ids) txs)) as Hcount.
  { rewrite (group_loop_stored _ _ _ _ Hloop).
    by rewrite stored_empty_buckets, dom_gset_to_gmap. }
  split; [done|]. rewrite Hcount. apply length_filter.
Qed.

Lemma stored_records_are_the_accepted_ones_witness :
  let txs := [Sample.tx "transfer" 1; Sample.tx "ignored" 2;
              Sample.tx "market" 999; Sample.tx "market" 1] in
  let g : gmap pykey (list json) :=
    {[ KInt 1 := [Sample.tx "transfer" 1; Sample.tx "market" 1];
       KInt 2 := [] ]} in
  _group_transactions Sample.me txs {[ KInt 1; KInt 2 ]} Sample.fresh
    = Some (Ok g, State [Print MsgGrouping] None) ∧
  stored g = length (filter (accepted Sample.me {[ KInt 1; KInt 2 ]}) txs) ∧
  (stored g ≤ length txs)%nat.
Proof.
  intros txs g.
  assert (_group_transactions Sample.me txs {[ KInt 1; KInt 2 ]} Sample.fresh
          = Some (Ok g, State [Print MsgGrouping] None)) as Hrun
    by (vm_compute; reflexivity).
  split; [exact Hrun|].
  exact (stored_records_are_the_accepted_ones _ _ _ _ _ _ Hrun).
Defined.

Lemma filter_foreign_bucket self k k' (bucket : list json) :
  k ≠ k' → Forall (filed_under self k') bucket →
  filter (filed_under self k) bucket = [].
Proof.
  intros Hne Hall. apply filter_none.
  eapply Forall_impl; [exact Hall|]. intros tx H' H.
  apply Hne. by eapply filed_under_functional.
Qed.

(** Out of the records of buckets with distinct keys, each holding records
    filed under its key, the filter for a key picks its bucket. *)
Lemma filter_concat_buckets self (l : list (pykey * list json)) :
  NoDup (l.*1) →
  Forall (λ kb, Forall (filed_under self kb.1) kb.2) l →
  ∀ k bucket, (k, bucket) ∈ l →
    filter (filed_under self k) (concat (l.*2)) = bucket.
Proof.
  induction l as [|[k0 b0] l IH]; intros Hnd Hall k bucket Hin.
  { by apply elem_of_nil in Hin. }
  simpl in *. apply NoDup_cons in Hnd as [Hk0 Hnd].
  apply Forall_cons in Hall as [Hb0 Hall]. simpl in Hb0.
  rewrite filter_app.
  apply elem_of_cons in Hin as [[= -> ->]|Hin].
  - rewrite (filter_all _ _ Hb0).
    rewrite (filter_none (filed_under self k0)); [by rewrite app_nil_r|].
    apply Forall_concat, Forall_fmap, Forall_forall.
    intros [k1 b1] Hin1. simpl.
    assert (k1 ≠ k0) as Hne.
    { intros ->. apply Hk0, list_elem_of_fmap. by exists (k0, b1). }
    eapply Forall_forall in Hall; [|exact Hin1]. simpl in Hall.
    eapply Forall_impl; [exact Hall|]. intros tx H1 H0.
    apply Hne. by eapply filed_under_functional.
  - assert (k ≠ k0) as Hne.
    { intros ->. apply Hk0, list_elem_of_fmap. by exists (k0, bucket). }
    rewrite (filter_foreign_bucket self k k0 b0 Hne Hb0). simpl.
    by apply IH.
Qed.

(** X6.  Grouping is idempotent on its own output: the records of the
    buckets of a grouped result, fed to the pass again with the same team
    identifiers, give the same grouped result. *)
Theorem regrouping_the_buckets_gives_them_back self txs team_ids g s s' :
  _group_transactions self txs team_ids s = Some (Ok g, s') →
  ∃ s'', _group_transactions self (all_records g) team_ids s'
         = Some (Ok g, s'').
Proof.
  intros [Hloop _]%group_transactions_inv.
  assert (Forall (λ kb : pykey * list json,
                    Forall (filed_under self kb.1) kb.2) (map_to_list g))
    as Hbuckets.
  { apply Forall_forall. intros [k b] Hin%elem_of_map_to_list. simpl.
    rewrite (group_loop_from_ids _ _ _ _ k Hloop) in Hin.
    destruct (decide (k ∈ team_ids)); [|done]. injection Hin as <-.
    apply Forall_forall. by intros tx [? _]%list_elem_of_filter. }
  destruct (group_loop_total self (all_records g) (gset_to_gmap [] team_ids))
    as [g2 Hloop2].
  { unfold all_records. apply Forall_concat, Forall_fmap.
    eapply Forall_impl; [exact Hbuckets|]. intros [k b] Hb. simpl in *.
    eapply Forall_impl; [exact Hb|]. intros tx Htx. by eexists. }
  assert (g2 = g) as ->.
  { apply map_eq. intros k.
    rewrite (group_loop_from_ids _ _ _ _ k Hloop2).
    rewrite (group_loop_from_ids _ _ _ _ k Hloop).
    destruct (decide (k ∈ team_ids)); [|done]. f_equal.
    apply (filter_concat_buckets self (map_to_list g)).
    - apply NoDup_fst_map_to_list.
    - exact Hbuckets.
    - apply elem_of_map_to_list.
      rewrite (group_loop_from_ids _ _ _ _ k Hloop). by rewrite decide_True. }
  eexists. unfold _group_transactions. unfold_M. by rewrite Hloop2.
Qed.

Lemma regrouping_the_buckets_gives_them_back_witness :
  let txs := [Sample.tx "transfer" 2; Sample.tx "ignored" 2;
              Sample.tx "market" 1; Sample.tx "market" 2] in
  let g : gmap pykey (list json) :=
    {[ KInt 1 := [Sample.tx "market" 1];
       KInt 2 := [Sample.tx "transfer" 2; Sample.tx "market" 2] ]} in
  _group_transactions Sample.me txs {[ KInt 1; KInt 2 ]} Sample.fresh
    = Some (Ok g, State [Print MsgGrouping] None) ∧
  ∃ s'', _group_transactions Sample.me (all_records g) {[ KInt 1; KInt 2 ]}
           (State [Print MsgGrouping] None)
         = Some (Ok g, s'').
Proof.
  intros txs g.
  assert (_group_transactions Sample.me txs {[ KInt 1; KInt 2 ]} Sample.fresh
          = Some (Ok g, State [Print MsgGrouping] None)) as Hrun
    by (vm_compute; reflexivity).
  split; [exact Hrun|].
  exact (regrouping_the_buckets_gives_them_back _ _ _ _ _ _ Hrun).
Defined.

(** X7.  The bucket of a team does not depend on which other teams are
    listed: with two sets of team identifiers, an identifier in both has
    the same bucket in both results. *)
Theorem bucket_independent_of_other_teams self txs ids1 ids2 g1 g2 s1 s1' s2 s2' :
  _group_transactions self txs ids1 s1 = Some (Ok g1, s1') →
  _group_transactions self txs ids2 s2 = Some (Ok g2, s2') →
  ∀ k, k ∈ ids1 → k ∈ ids2 → g1 !! k = g2 !! k.
Proof.
  intros [H1 _]%group_transactions_inv [H2 _]%group_transactions_inv k Hk1 Hk2.
  rewrite (group_loop_from_ids _ _ _ _ k H1), (group_loop_from_ids _ _ _ _ k H2).
  by rewrite !decide_True.
Qed.

Lemma bucket_independent_of_other_teams_witness :
  let txs := [Sample.tx "transfer" 1; Sample.tx "market" 2] in
  let g1 : gmap pykey (list json) := {[ KInt 1 := [Sample.tx "transfer" 1] ]} in
  let g2 : gmap pykey (list json) :=
    {[ KInt 1 := [Sample.tx "transfer" 1]; KInt 2 := [Sample.tx "market" 2] ]} in
  _group_transactions Sample.me txs {[ KInt 1 ]} Sample.fresh
    = Some (Ok g1, State [Print MsgGrouping] None) ∧
  _group_transactions Sample.me txs {[ KInt 1; KInt 2 ]} Sample.fresh
    = Some (Ok g2, State [Print MsgGrouping] None) ∧
  g1 !! KInt 1 = g2 !! KInt 1.
Proof.
  intros txs g1 g2.
  assert (_group_transactions Sample.me txs {[ KInt 1 ]} Sample.fresh
          = Some (Ok g1, State [Print MsgGrouping] None)) as H1
    by (vm_compute; reflexivity).
  assert (_group_transactions Sample.me txs {[ KInt 1; KInt 2 ]} Sample.fresh
          = Some (Ok g2, State [Print MsgGrouping] None)) as H2
    by (vm_compute; reflexivity).
  split; [exact H1|]. split; [exact H2|].
  apply (bucket_independent_of_other_teams _ _ _ _ _ _ _ _ _ _ H1 H2).
  - apply (bool_decide_unpack _). vm_compute. reflexivity.
  - apply (bool_decide_unpack _). vm_compute. reflexivity.
Defined.

(** ** More on the loader *)

Lemma id_set_spec teams : ∀ acc ids,
  id_set teams acc = Ok ids →
  ∀ k, k ∈ ids ↔ k ∈ acc ∨ ∃ team, team ∈ teams ∧ team_id_is team k.
Proof.
  induction teams as [|team teams IH]; intros acc ids Hset k; simpl in Hset.
  - injection Hset as <-. split; [by left|].
    intros [?|(team & Hin & _)]; [done|]. by apply elem_of_nil in Hin.
  - destruct (Py.getitem team "id") as [v|e] eqn:Hv; simpl in Hset; [|done].
    destruct (Py.hash_key v) as [k0|e] eqn:Hk0; simpl in Hset; [|done].
    rewrite (IH _ _ Hset k). rewrite elem_of_union, elem_of_singleton.
    split.
    + intros [[->|?]|(t & Hin & Hid)].
      * right. exists team. split; [left|by exists v].
      * by left.
      * right. exists t. split; [by right|done].
    + intros [?|(t & Hin & Hid)]; [by left; right|].
      apply elem_of_cons in Hin as [->|Hin].
      * destruct Hid as (v' & Hv' & Hk'). left; left. congruence.
      * right. by exists t.
Qed.

Lemma id_set_size teams : ∀ acc ids,
  id_set teams acc = Ok ids → (size ids ≤ size acc + length teams)%nat.
Proof.
  induction teams as [|team teams IH]; intros acc ids Hset; simpl in Hset.
  - injection Hset as <-. simpl. lia.
  - destruct (Py.getitem team "id") as [v|e]; simpl in Hset; [|done].
    destruct (Py.hash_key v) as [k0|e]; simpl in Hset; [|done].
    apply IH in Hset. simpl.
    assert (size ({[k0]} ∪ acc) ≤ S (size acc))%nat; [|lia].
    rewrite size_union_alt, size_singleton.
    assert (size (acc ∖ {[k0]}) ≤ size acc)%nat; [|lia].
    apply subseteq_size, subseteq_difference_l. done.
Qed.

Lemma bad_team_raises team e :
  bad_team team e → (v ← Py.getitem team "id"; Py.hash_key v) = Raise e.
Proof.
  intros [(fields & -> & Hid & ->)|[[Hno ->]|(fields & v & -> & Hid & Hv & ->)]].
  - simpl. by rewrite Hid.
  - destruct team; try done. by destruct (Hno fields).
  - simpl. rewrite Hid. simpl. by destruct v.
Qed.

Lemma id_set_cons team rest acc :
  id_set (team :: rest) acc
  = match (v ← Py.getitem team "id"; Py.hash_key v) with
    | Ok k => id_set rest ({[ k ]} ∪ acc)
    | Raise e => Raise e
    end.
Proof.
  cbn [id_set]. destruct (Py.getitem team "id") as [v|e]; [|done].
  cbn [mbind res_bind]. by destruct (Py.hash_key v).
Qed.

Lemma id_set_raises good : ∀ bad rest e acc,
  Forall (λ team, ∃ k, team_id_is team k) good →
  bad_team bad e →
  id_set (good ++ bad :: rest) acc = Raise e.
Proof.
  induction good as [|team good IH]; intros bad rest e acc Hgood Hbad.
  - cbn [app]. by rewrite id_set_cons, (bad_team_raises _ _ Hbad).
  - apply Forall_cons in Hgood as [(k & v & Hv & Hk) Hgood].
    cbn [app]. rewrite id_set_cons, Hv. cbn [mbind res_bind]. rewrite Hk.
    by apply IH.
Qed.

(** X8.  From a team file that is a JSON array the loader returns, without
    printing, the set of the [id]s of the team records: a key is in the
    set exactly when some record has it as [id]; repeated ids collapse, so
    the set is never larger than the array. *)
Theorem loaded_ids_are_the_ids_of_the_teams self w teams ids s s' :
  input_source w = SourceJson (JArr teams) →
  _load_team_ids self w s = Some (Ok ids, s') →
  s' = s ∧
  (∀ k, k ∈ ids ↔ ∃ team, team ∈ teams ∧ team_id_is team k) ∧
  (size ids ≤ length teams)%nat.
Proof.
  intros Hsrc. rewrite (load_team_ids_json _ _ _ _ Hsrc). simpl.
  intros [= Hset <-]. split; [done|]. split.
  - intros k. rewrite (id_set_spec _ _ _ Hset k). split; [|by right].
    intros [Hin|?]; [|done]. by apply not_elem_of_empty in Hin.
  - apply id_set_size in Hset. by rewrite size_empty in Hset.
Qed.

Lemma loaded_ids_are_the_ids_of_the_teams_witness :
  let teams := [JObj [("id", JInt 1)]; JObj [("id", JInt 2)];
                JObj [("id", JInt 1); ("name", JStr "again")]] in
  let w := World (SourceJson (JArr teams)) (api Sample.scenario_a) SinkOk in
  _load_team_ids Sample.me w Sample.fresh
    = Some (Ok {[ KInt 1; KInt 2 ]}, Sample.fresh) ∧
  Sample.fresh = Sample.fresh ∧
  (∀ k, k ∈ ({[ KInt 1; KInt 2 ]} : gset pykey) ↔
        ∃ team, team ∈ teams ∧ team_id_is team k) ∧
  (size ({[ KInt 1; KInt 2 ]} : gset pykey) ≤ length teams)%nat.
Proof.
  intros teams w.
  assert (_load_team_ids Sample.me w Sample.fresh
          = Some (Ok {[ KInt 1; KInt 2 ]}, Sample.fresh)) as Hload
    by (vm_compute; reflexivity).
  split; [exact Hload|].
  exact (loaded_ids_are_the_ids_of_the_teams Sample.me w teams _ _ _
           eq_refl Hload).
Defined.

(** X9.  A team record without a usable [id] is not caught by the loader:
    at the first such record the run ends with [KeyError] (no [id]) or
    [TypeError] (not an object, or an unhashable [id]), having printed
    nothing, requested nothing and left the output file alone. *)
Theorem bad_team_record_crashes_run self w good bad rest e fuel s :
  input_source w = SourceJson (JArr (good ++ bad :: rest)) →
  Forall (λ team, ∃ k, team_id_is team k) good →
  bad_team bad e →
  _load_team_ids self w s = Some (Raise e, s) ∧
  run self w fuel s = Some (Raise e, s) ∧
  (e = KeyError ∨ e = TypeError).
Proof.
  intros Hsrc Hgood Hbad.
  assert (_load_team_ids self w s = Some (Raise e, s)) as Hload.
  { rewrite (load_team_ids_json _ _ _ _ Hsrc). simpl.
    by rewrite (id_set_raises good bad rest e ∅ Hgood Hbad). }
  split; [exact Hload|]. split.
  - unfold run, mbind at 1, M_bind at 1. by rewrite Hload.
  - destruct Hbad as [(? & _ & _ & ->)|[[_ ->]|(? & ? & _ & _ & _ & ->)]]; auto.
Qed.

Lemma bad_team_record_crashes_run_witness :
  _load_team_ids Sample.me Fixture.team_without_id Sample.fresh
    = Some (Raise KeyError, Sample.fresh) ∧
  run Sample.me Fixture.team_without_id 1 Sample.fresh
    = Some (Raise KeyError, Sample.fresh) ∧
  (KeyError = KeyError ∨ KeyError = TypeError).
Proof.
  apply (bad_team_record_crashes_run Sample.me Fixture.team_without_id
           [JObj [("id", JInt 1)]] (JObj [("name", JStr "x")])
           [JObj [("id", JInt 3)]] KeyError 1 Sample.fresh).
  - reflexivity.
  - repeat constructor. exists (KInt 1), (JInt 1). by split.
  - left. by exists [("name", JStr "x")].
Defined.

(** ** More on the pagination loop *)

Lemma page_requests_from_cons offset n :
  page_requests_from offset (S n)
  = (offset, 100) :: page_requests_from (offset + 100) n.
Proof.
  unfold page_requests_from. simpl. f_equal; [f_equal; lia|].
  rewrite <- (fmap_S_seq 0), <- list_fmap_compose.
  apply list_fmap_ext. intros _ i _. simpl. f_equal. lia.
Qed.

Lemma page_requests_from_0 n : page_requests_from 0 n = page_requests n.
Proof. done. Qed.

Lemma raise_for_status_true status :
  raise_for_status status = true → 400 ≤ status < 600.
Proof.
  unfold raise_for_status. intros [H1 H2]%andb_true_iff.
  apply Z.leb_le in H1. apply Z.ltb_lt in H2. lia.
Qed.

Lemma iter_raises_truthy data e :
  Py.truthy data = true → Py.iter data = Raise e →
  (data = JBool true ∨ ∃ n, data = JInt n ∧ n ≠ 0) ∧ e = TypeError.
Proof.
  destruct data as [|[]|n| | |]; simpl; try done.
  - intros _ [= <-]. auto.
  - intros Hn [= <-]. split; [|done]. right. exists n. split; [done|].
    intros ->. done.
Qed.

Lemma iter_ok_len data items :
  Py.iter data = Ok items → ∃ n, Py.len data = Ok n.
Proof. destruct data; simpl; try done; by eexists. Qed.

Lemma default_data_scalar fields data :
  default (JArr []) (Py.assoc "data" fields) = data →
  (data = JBool true ∨ ∃ n, data = JInt n ∧ n ≠ 0) →
  Py.assoc "data" fields = Some data.
Proof.
  destruct (Py.assoc "data" fields); simpl; [by intros ->|].
  intros <- [?|(n & ? & _)]; done.
Qed.

(** One round of the loop: it ends on a failed request, ends after a short
    page, raises on a body it cannot read, or goes on to the next page;
    in each case exactly one request was made. *)
Lemma fetch_loop_step w fuel offset acc s :
  (transport_failure (api w offset 100) ∧
   ∃ s1, fetch_loop (S fuel) w offset 100 acc s = Some (Ok None, s1) ∧
         requests (log s1) = requests (log s) ++ [(offset, 100)] ∧
         output s1 = output s)
  ∨ (short_page (api w offset 100) ∧
     ∃ items s1,
       fetch_loop (S fuel) w offset 100 acc s = Some (Ok (Some (acc ++ items)), s1) ∧
       requests (log s1) = requests (log s) ++ [(offset, 100)] ∧
       output s1 = output s)
  ∨ (∃ status doc e,
       api w offset 100 = Response status (Some doc) ∧
       raise_for_status status = false ∧ unreadable_body doc e ∧
       ∃ s1, fetch_loop (S fuel) w offset 100 acc s = Some (Raise e, s1) ∧
             requests (log s1) = requests (log s) ++ [(offset, 100)] ∧
             output s1 = output s)
  ∨ (∃ items s1,
       fetch_loop (S fuel) w offset 100 acc s
       = fetch_loop fuel w (offset + 100) 100 (acc ++ items) s1 ∧
       requests (log s1) = requests (log s) ++ [(offset, 100)] ∧
       output s1 = output s).
Proof.
  assert (∀ ev, requests ((log s ++ [HttpGet offset 100]) ++ [Print ev])
                = requests (log s) ++ [(offset, 100)]) as Hreq.
  { intros ev. rewrite !requests_app. simpl. by rewrite app_nil_r. }
  assert (requests (log s ++ [HttpGet offset 100])
          = requests (log s) ++ [(offset, 100)]) as Hreq0.
  { by rewrite requests_app. }
  cbn [fetch_loop]. unfold_M.
  destruct (api w offset 100) as [|status body] eqn:Hapi.
  { left. split; [done|]. eexists. split; [done|]. cbn [log output]. by rewrite Hreq. }
  destruct (raise_for_status status) eqn:Hstatus.
  { left. split; [left; by apply raise_for_status_true|].
    eexists. split; [done|]. cbn [log output]. by rewrite Hreq. }
  destruct body as [doc|]; simpl.
  2:{ left. split; [by right|]. eexists. split; [done|]. cbn [log output]. by rewrite Hreq. }
  destruct (Py.get_default doc "data" (JArr [])) as [data|e] eqn:Hget; simpl.
  2:{ right; right; left. exists status, doc, e.
      split; [done|]. split; [done|]. split.
      - left. destruct doc; simpl in Hget; try (injection Hget as <-);
          try done. 
      - eexists. split; [done|]. cbn [log output]. by rewrite Hreq0. }
  destruct (Py.truthy data) eqn:Htruthy; simpl.
  2:{ right; left. split.
      - exists status, doc, data. auto.
      - exists []. eexists. rewrite app_nil_r. split; [done|]. cbn [log output]. by rewrite Hreq. }
  destruct (Py.iter data) as [items|e] eqn:Hiter; simpl.
  2:{ right; right; left. exists status, doc, e.
      split; [done|]. split; [done|].
      destruct (iter_raises_truthy _ _ Htruthy Hiter) as [Hdata ->].
      split.
      - right. destruct doc as [| | | | |fields]; try done.
        exists fields, data. unfold Py.get_default in Hget.
        injection Hget as Hget. split; [done|].
        split; [by apply default_data_scalar|]. done.
      - eexists. split; [done|]. cbn [log output]. by rewrite Hreq0. }
  destruct (iter_ok_len _ _ Hiter) as [n Hlen]. rewrite Hlen. simpl.
  destruct (n <? 100)%Z eqn:Hn.
  - right; left. split.
    + exists status, doc, data. split; [done|]. split; [done|]. split; [done|].
      right. exists n. split; [done|]. by apply Z.ltb_lt.
    + exists items. eexists. split; [done|]. cbn [log output]. by rewrite Hreq.
  - right; right; right. exists items. eexists. split; [done|]. cbn [log output]. by rewrite Hreq.
Qed.

(** How a call of the loop that returns has gone: it has made the
    requests of [n + 1] successive pages, and the answer to the last one
    decides the result. *)
Lemma fetch_loop_trace w fuel : ∀ offset acc s r s',
  fetch_loop fuel w offset 100 acc s = Some (r, s') →
  ∃ n : nat, (n < fuel)%nat ∧
    requests (log s') = requests (log s) ++ page_requests_from offset (S n) ∧
    output s' = output s ∧
    match r with
    | Ok None => transport_failure (api w (offset + 100 * Z.of_nat n) 100)
    | Ok (Some txs) =>
        short_page (api w (offset + 100 * Z.of_nat n) 100) ∧ acc `prefix_of` txs
    | Raise e =>
        ∃ status doc,
          api w (offset + 100 * Z.of_nat n) 100 = Response status (Some doc) ∧
          raise_for_status status = false ∧ unreadable_body doc e
    end.
Proof.
  induction fuel as [|fuel IH]; intros offset acc s r s' Hloop; [done|].
  assert (offset + 100 * Z.of_nat 0 = offset) as Hoff by lia.
  assert (page_requests_from offset 1 = [(offset, 100)]) as Hone
    by (by rewrite page_requests_from_cons).
  destruct (fetch_loop_step w fuel offset acc s)
    as [(Hfail & s1 & Heq & Hreq & Hout)
       |[(Hshort & items & s1 & Heq & Hreq & Hout)
        |[(status & doc & e & Hapi & Hstatus & Hbody & s1 & Heq & Hreq & Hout)
         |(items & s1 & Heq & Hreq & Hout)]]];
    rewrite Heq in Hloop.
  - injection Hloop as <- <-. exists 0%nat. rewrite Hoff, Hone.
    split; [lia|]. by rewrite Hreq.
  - injection Hloop as <- <-. exists 0%nat. rewrite Hoff, Hone.
    split; [lia|]. rewrite Hreq. repeat split; try done.
    by apply prefix_app_r.
  - injection Hloop as <- <-. exists 0%nat. rewrite Hoff, Hone.
    split; [lia|]. rewrite Hreq. repeat split; try done. by exists status, doc.
  - apply IH in Hloop as (n & Hn & Hreq' & Hout' & Hres).
    exists (S n). split; [lia|].
    replace (offset + 100 * Z.of_nat (S n))
      with (offset + 100 + 100 * Z.of_nat n) by lia.
    split; [|split].
    + rewrite Hreq', Hreq, <- app_assoc.
      by rewrite (page_requests_from_cons offset (S n)).
    + congruence.
    + destruct r as [[txs|]|e]; try done.
      destruct Hres as [Hshort Hpre]. split; [done|].
      etrans; [|exact Hpre]. by apply prefix_app_r.
Qed.

Lemma fetch_all_trace self w fuel s r s' :
  _fetch_all_transactions self w fuel s = Some (r, s') →
  fetch_loop fuel w 0 100 []
    (State (log s ++ [Print MsgStartFetch]) (output s)) = Some (r, s').
Proof. unfold _fetch_all_transactions. by unfold_M. Qed.

(** X10.  Whatever the endpoint answers and however the fetch ends (a
    list, [None] or an exception), the requests it has made are those of
    the pages 0, 1, ..., n-1 in this order, each once, at offsets 0, 100,
    ... with limit 100, for some n of at least 1; and the fetch has not
    touched the output file. *)
Theorem fetch_requests_successive_pages self w fuel s r s' :
  _fetch_all_transactions self w fuel s = Some (r, s') →
  ∃ n : nat, (1 ≤ n ≤ fuel)%nat ∧
    requests (log s') = requests (log s) ++ page_requests n ∧
    output s' = output s.
Proof.
  intros Hfetch%fetch_all_trace.
  apply fetch_loop_trace in Hfetch as (n & Hn & Hreq & Hout & _).
  exists (S n). split; [lia|]. split; [|done].
  rewrite Hreq. simpl. rewrite requests_app. simpl. by rewrite app_nil_r.
Qed.

Lemma fetch_requests_successive_pages_witness :
  ∃ n : nat, (1 ≤ n ≤ 5)%nat ∧
    requests [Print MsgStartFetch; HttpGet 0 100; Print (MsgObtained 100 100);
              HttpGet 100 100; Print MsgApiError]
      = requests (log Sample.fresh) ++ page_requests n ∧
    (None : option file_content) = output Sample.fresh.
Proof.
  apply (fetch_requests_successive_pages Sample.me Sample.second_page_down 5
           Sample.fresh (Ok None)
           (State [Print MsgStartFetch; HttpGet 0 100; Print (MsgObtained 100 100);
                   HttpGet 100 100; Print MsgApiError] None)).
  vm_compute. reflexivity.
Defined.

(** X11.  The result of the fetch tells how the last request went: [None]
    is returned only when the last request failed (no response, status 4xx
    or 5xx, body not JSON), and a list only when the last response was a
    page with falsy [data] or fewer than 100 items. *)
Theorem fetch_result_tells_last_response self w fuel s res s' :
  _fetch_all_transactions self w fuel s = Some (Ok res, s') →
  ∃ n : nat,
    requests (log s') = requests (log s) ++ page_requests (S n) ∧
    match res with
    | None => transport_failure (api w (100 * Z.of_nat n) 100)
    | Some _ => short_page (api w (100 * Z.of_nat n) 100)
    end.
Proof.
  intros Hfetch%fetch_all_trace.
  apply fetch_loop_trace in Hfetch as (n & Hn & Hreq & Hout & Hres).
  exists n. split.
  - rewrite Hreq. simpl. rewrite requests_app. simpl. by rewrite app_nil_r.
  - rewrite Z.add_0_l in Hres. destruct res; [by destruct Hres|done].
Qed.

Lemma fetch_result_tells_last_response_witness :
  ∃ n : nat,
    requests [Print MsgStartFetch; HttpGet 0 100; Print (MsgObtained 100 100);
              HttpGet 100 100; Print MsgNoMore]
      = requests (log Sample.fresh) ++ page_requests (S n) ∧
    short_page (api Sample.scenario_d (100 * Z.of_nat n) 100).
Proof.
  apply (fetch_result_tells_last_response Sample.me Sample.scenario_d 2
           Sample.fresh (Some (replicate 100 (Sample.tx "transfer" 1)))
           (State [Print MsgStartFetch; HttpGet 0 100; Print (MsgObtained 100 100);
                   HttpGet 100 100; Print MsgNoMore] None)).
  vm_compute. reflexivity.
Defined.

Lemma fetch_loop_endless w fuel : ∀ offset acc s,
  (∀ i : nat, ∃ page, serves w (offset + 100 * Z.of_nat i) page ∧
                      (100 ≤ length page)%nat) →
  fetch_loop fuel w offset 100 acc s = None.
Proof.
  induction fuel as [|fuel IH]; intros offset acc s Hfull; [done|].
  destruct (Hfull 0%nat) as (page & Hserves & Hlen).
  rewrite Z.add_0_r in Hserves.
  rewrite (fetch_loop_full_page _ _ _ _ _ _ Hserves Hlen).
  apply IH. intros i. destruct (Hfull (S i)) as (page' & Hs & Hl).
  exists page'. split; [|done].
  by replace (offset + 100 + 100 * Z.of_nat i)
    with (offset + 100 * Z.of_nat (S i)) by lia.
Qed.

(** X12.  The loop has no bound of its own: against an endpoint that
    serves 100 records or more at every offset the fetch never returns,
    whatever the fuel. *)
Theorem endless_full_pages_never_return self w s :
  (∀ i : nat, ∃ page, serves w (100 * Z.of_nat i) page ∧
                      (100 ≤ length page)%nat) →
  ∀ fuel, _fetch_all_transactions self w fuel s = None.
Proof.
  intros Hfull fuel. unfold _fetch_all_transactions. unfold_M.
  by rewrite fetch_loop_endless.
Qed.

Lemma endless_full_pages_never_return_witness :
  _fetch_all_transactions Sample.me Fixture.endless 7 Sample.fresh = None.
Proof.
  refine (endless_full_pages_never_return Sample.me Fixture.endless
            Sample.fresh _ 7%nat).
  intros i. exists (replicate 100 (Sample.tx "transfer" 1)). split.
  - by exists 200, [("data", JArr (replicate 100 (Sample.tx "transfer" 1)))].
  - vm_compute. lia.
Defined.

(** ** More on the whole run *)

Lemma fetch_loop_unreadable w offset status doc e acc fuel s :
  api w offset 100 = Response status (Some doc) →
  raise_for_status status = false →
  unreadable_body doc e →
  fetch_loop (S fuel) w offset 100 acc s
  = Some (Raise e, State (log s ++ [HttpGet offset 100]) (output s)).
Proof.
  intros Hapi Hstatus Hbody. cbn [fetch_loop]. unfold_M.
  rewrite Hapi, Hstatus.
  destruct Hbody as [[Hno ->]|(fields & data & -> & Hdata & Hkind & ->)].
  - destruct doc; try done. by destruct (Hno fields).
  - unfold Py.get_default. rewrite Hdata. simpl.
    destruct Hkind as [->|(n & -> & Hn)]; simpl; [done|].
    by rewrite (proj2 (Z.eqb_neq _ _) Hn).
Qed.

(** The fetch against full pages followed by a short page. *)
Lemma fetch_all_pages self w (full : list (list json)) (final : list json) fuel s :
  (∀ (i : nat) page, full !! i = Some page →
     serves w (100 * Z.of_nat i) page ∧ (100 ≤ length page)%nat) →
  serves w (100 * Z.of_nat (length full)) final →
  (length final < 100)%nat →
  (length full < fuel)%nat →
  _fetch_all_transactions self w fuel s
  = Some (Ok (Some (concat full ++ final)),
          State (log s ++ Print MsgStartFetch :: pages_log 0 0 full
                   ++ last_page_log (100 * Z.of_nat (length full))
                        (length (concat full)) final)
                (output s)).
Proof.
  intros Hfull Hfinal Hshort Hfuel.
  destruct fuel as [|fuel]; [lia|].
  replace (S fuel) with (length full + S (fuel - length full))%nat by lia.
  unfold _fetch_all_transactions. unfold_M.
  rewrite fetch_loop_full_pages by done.
  rewrite (fetch_loop_short_page _ _ final) by done.
  simpl. by rewrite <- !app_assoc.
Qed.

(** X13.  A response the loop cannot read as a page (a JSON body that is
    not an object, or whose [data] is a non-zero number or [true]) is not
    a [RequestException]: after any number of full pages the exception,
    [AttributeError] or [TypeError], leaves the run as it is raised, with
    no error message printed, nothing grouped and the output file left
    alone. *)
Theorem unreadable_body_crashes_run self w teams team_ids
    (full : list (list json)) status doc e fuel s :
  input_source w = SourceJson teams →
  (items ← Py.iter teams; id_set items ∅) = Ok team_ids →
  team_ids ≠ ∅ →
  (∀ (i : nat) page, full !! i = Some page →
     serves w (100 * Z.of_nat i) page ∧ (100 ≤ length page)%nat) →
  api w (100 * Z.of_nat (length full)) 100 = Response status (Some doc) →
  raise_for_status status = false →
  unreadable_body doc e →
  (length full < fuel)%nat →
  run self w fuel s
  = Some (Raise e,
          State (log s ++ Print MsgStartFetch :: pages_log 0 0 full
                   ++ [HttpGet (100 * Z.of_nat (length full)) 100])
                (output s)).
Proof.
  intros Hsrc Hids Hne Hfull Hapi Hstatus Hbody Hfuel.
  destruct fuel as [|fuel]; [lia|].
  replace (S fuel) with (length full + S (fuel - length full))%nat by lia.
  unfold run, mbind at 1, M_bind at 1.
  rewrite (load_team_ids_json _ _ _ _ Hsrc), Hids.
  rewrite decide_False by done.
  unfold _fetch_all_transactions. unfold_M.
  rewrite fetch_loop_full_pages by done.
  rewrite (fetch_loop_unreadable _ _ _ _ _ _ _ _ Hapi Hstatus Hbody).
  simpl. by rewrite <- !app_assoc.
Qed.

Lemma unreadable_body_crashes_run_witness :
  run Sample.me Fixture.array_body 1 Sample.fresh
  = Some (Raise AttributeError,
          State (log Sample.fresh ++ Print MsgStartFetch :: pages_log 0 0 []
                   ++ [HttpGet (100 * Z.of_nat (length ([] : list (list json)))) 100])
                (output Sample.fresh)).
Proof.
  apply (unreadable_body_crashes_run Sample.me Fixture.array_body
           Sample.teams12 {[ KInt 1; KInt 2 ]} [] 200
           (JArr [Sample.tx "transfer" 1]) AttributeError 1 Sample.fresh).
  - reflexivity.
  - vm_compute. reflexivity.
  - apply (bool_decide_unpack _). vm_compute. reflexivity.
  - intros i page [=].
  - reflexivity.
  - reflexivity.
  - left. split; [by intros fields|reflexivity].
  - simpl. lia.
Defined.

(** X14.  The whole run, when nothing fails: with a team file giving a
    non-empty set of identifiers, an endpoint serving full pages and then
    a short one, records the loop body raises on none of, and a sink that
    accepts the write, the run replaces whatever the output file held by
    the grouped result, whose keys are the team identifiers and whose
    buckets are the records of the pages, in page order, filed under each
    key; the last two messages are those of the grouping and of the
    save. *)
Theorem run_saves_the_grouped_pages self w teams team_ids
    (full : list (list json)) (final : list json) fuel s :
  input_source w = SourceJson teams →
  (items ← Py.iter teams; id_set items ∅) = Ok team_ids →
  team_ids ≠ ∅ →
  (∀ (i : nat) page, full !! i = Some page →
     serves w (100 * Z.of_nat i) page ∧ (100 ≤ length page)%nat) →
  serves w (100 * Z.of_nat (length full)) final →
  (length final < 100)%nat →
  (length full < fuel)%nat →
  Forall (λ tx, ∃ key, tx_key self tx = Ok key) (concat full ++ final) →
  sink w = SinkOk →
  ∃ g s',
    run self w fuel s = Some (Ok (), s') ∧
    output s' = Some (Dumped g) ∧
    dom g = team_ids ∧
    (∀ k, k ∈ team_ids →
       g !! k = Some (filter (filed_under self k) (concat full ++ final))) ∧
    (∃ l, log s' = l ++ [Print MsgGrouping; Print MsgSaved]).
Proof.
  intros Hsrc Hids Hne Hfull Hfinal Hshort Hfuel Hok Hsink.
  destruct (group_loop_total self _ (gset_to_gmap [] team_ids) Hok)
    as [g Hgroup].
  exists g. eexists. split; [|split; [|split; [|split]]].
  - erewrite run_reaches_save; [| |done| |exact Hgroup].
    + unfold _save_results. rewrite Hsink. unfold_M. reflexivity.
    + by rewrite (load_team_ids_json _ _ _ _ Hsrc), Hids.
    + by apply fetch_all_pages.
  - done.
  - apply set_eq. intros k. rewrite elem_of_dom.
    rewrite (group_loop_from_ids _ _ _ _ k Hgroup).
    destruct (decide (k ∈ team_ids)); split;
      first [done | by intros [? ?] | by eexists].
  - intros k Hk.
    by rewrite (group_loop_from_ids _ _ _ _ k Hgroup), decide_True.
  - simpl. eexists. rewrite <- app_assoc. reflexivity.
Qed.

Lemma run_saves_the_grouped_pages_witness :
  let txs := [Sample.tx "transfer" 1; Sample.tx "market" 2] in
  ∃ g s',
    run Sample.me Sample.scenario_a 1 Sample.fresh = Some (Ok (), s') ∧
    output s' = Some (Dumped g) ∧
    dom g = {[ KInt 1; KInt 2 ]} ∧
    (∀ k, k ∈ ({[ KInt 1; KInt 2 ]} : gset pykey) →
       g !! k = Some (filter (filed_under Sample.me k) (concat [] ++ txs))) ∧
    (∃ l, log s' = l ++ [Print MsgGrouping; Print MsgSaved]).
Proof.
  intros txs.
  apply (run_saves_the_grouped_pages Sample.me Sample.scenario_a
           Sample.teams12 {[ KInt 1; KInt 2 ]} [] txs 1 Sample.fresh).
  - reflexivity.
  - vm_compute. reflexivity.
  - apply (bool_decide_unpack _). vm_compute. reflexivity.
  - intros i page [=].
  - by exists 200, [("data", JArr txs)].
  - simpl. lia.
  - simpl. lia.
  - repeat constructor; by eexists.
  - reflexivity.
Defined.

Lemma fetch_all_output self w fuel s r s' :
  _fetch_all_transactions self w fuel s = Some (r, s') → output s' = output s.
Proof.
  unfold _fetch_all_transactions. unfold_M.
  intros Hloop. by apply fetch_loop_output in Hloop.
Qed.

(** X15.  The output file is touched by [_save_results] only, at the end
    of a run whose three earlier stages succeeded: if a run changes it,
    then the loader gave a non-empty set, the fetch returned a list and
    the grouping returned a result; and either the run returns and the
    file holds that result (sink fine), or the run returns and the file
    is cut short (a write raised [IOError] after opening), or the run
    raises [UnicodeEncodeError] and the file is cut short (the data
    cannot be encoded).  A run that stops or raises before the save
    leaves the file as it was. *)
Theorem output_changes_only_after_grouping self w fuel s r s' :
  run self w fuel s = Some (r, s') →
  output s' ≠ output s →
  ∃ team_ids txs g s1 s2,
    _load_team_ids self w s = Some (Ok team_ids, s1) ∧ team_ids ≠ ∅ ∧
    _fetch_all_transactions self w fuel s1 = Some (Ok (Some txs), s2) ∧
    group_loop self txs (gset_to_gmap [] team_ids) = Ok g ∧
    ((sink w = SinkOk ∧ r = Ok () ∧ output s' = Some (Dumped g)) ∨
     (sink w = SinkDumpFails ∧ r = Ok () ∧ output s' = Some Truncated) ∨
     (sink w = SinkEncodeFails ∧ r = Raise UnicodeEncodeError ∧
      output s' = Some Truncated)).
Proof.
  intros Hrun Hchanged. unfold run, mbind at 1, M_bind at 1 in Hrun.
  destruct (_load_team_ids self w s) as [[[team_ids|e] s1]|] eqn:Hload;
    [| |done].
  2:{ injection Hrun as <- <-.
      by apply load_team_ids_quiet in Hload as [? _]. }
  pose proof (load_team_ids_quiet _ _ _ _ _ Hload) as [Hout1 _].
  destruct (decide (team_ids = ∅)) as [|Hne].
  { injection Hrun as <- <-. done. }
  unfold mbind at 1, M_bind at 1 in Hrun.
  destruct (_fetch_all_transactions self w fuel s1) as [[[[txs|]|e] s2]|]
    eqn:Hfetch; [| | |done].
  2:{ injection Hrun as <- <-. apply fetch_all_output in Hfetch. congruence. }
  2:{ injection Hrun as <- <-. apply fetch_all_output in Hfetch. congruence. }
  pose proof (fetch_all_output _ _ _ _ _ _ Hfetch) as Hout2.
  unfold mbind at 1, M_bind at 1 in Hrun.
  unfold _group_transactions, print, emit, lift, mbind, M_bind in Hrun.
  simpl in Hrun.
  destruct (group_loop self txs (gset_to_gmap [] team_ids)) as [g|e] eqn:Hgroup.
  2:{ injection Hrun as <- <-. simpl in Hchanged. congruence. }
  unfold _save_results, set_output, print, emit, raise, lift, mbind, M_bind
    in Hrun.
  destruct (sink w) eqn:Hsink; injection Hrun as <- <-; simpl in *.
  - exists team_ids, txs, g, s1, s2. auto 10.
  - congruence.
  - exists team_ids, txs, g, s1, s2. auto 10.
  - exists team_ids, txs, g, s1, s2. auto 10.
Qed.

Lemma output_changes_only_after_grouping_witness :
  ∃ team_ids txs g s1 s2,
    _load_team_ids Sample.me Fixture.unencodable_record Sample.fresh
      = Some (Ok team_ids, s1) ∧ team_ids ≠ ∅ ∧
    _fetch_all_transactions Sample.me Fixture.unencodable_record 1 s1
      = Some (Ok (Some txs), s2) ∧
    group_loop Sample.me txs (gset_to_gmap [] team_ids) = Ok g ∧
    ((sink Fixture.unencodable_record = SinkOk ∧
      (Raise UnicodeEncodeError : res ()) = Ok () ∧
      Some Truncated = Some (Dumped g)) ∨
     (sink Fixture.unencodable_record = SinkDumpFails ∧
      (Raise UnicodeEncodeError : res ()) = Ok () ∧
      Some Truncated = Some Truncated) ∨
     (sink Fixture.unencodable_record = SinkEncodeFails ∧
      (Raise UnicodeEncodeError : res ()) = Raise UnicodeEncodeError ∧
      Some Truncated = Some Truncated)).
Proof.
  apply (output_changes_only_after_grouping Sample.me
           Fixture.unencodable_record 1 Sample.fresh
           (Raise UnicodeEncodeError)
           (State [Print MsgStartFetch; HttpGet 0 100; Print (MsgObtained 1 1);
                   Print MsgGrouping]
                  (Some Truncated))).
  - vm_compute. reflexivity.
  - discriminate.
Defined.

(** X16.  A team file that is valid JSON but not an array never gets the
    run to the network: an empty object or an empty string counts as no
    team at all and the run returns in silence; anything else (null, a
    boolean, a number, a non-empty string or object) raises [TypeError]
    out of the run.  The state is untouched in both cases. *)
Theorem non_array_team_file_stops_run self w teams fuel s :
  input_source w = SourceJson teams →
  (∀ items, teams ≠ JArr items) →
  ∃ r, run self w fuel s = Some (r, s) ∧
       (((teams = JObj [] ∨ teams = JStr "") ∧ r = Ok ()) ∨
        (teams ≠ JObj [] ∧ teams ≠ JStr "" ∧ r = Raise TypeError)).
Proof.
  intros Hsrc Hnot. unfold run, mbind at 1, M_bind at 1.
  rewrite (load_team_ids_json _ _ _ _ Hsrc).
  destruct teams as [| b | n | str | items | fields]; simpl.
  - eexists. split; [done|]. by right.
  - eexists. split; [done|]. by right.
  - eexists. split; [done|]. by right.
  - destruct str as [|c str]; simpl.
    + rewrite decide_True by done. eexists. split; [done|]. left. auto.
    + eexists. split; [done|]. by right.
  - by destruct (Hnot items).
  - destruct fields as [|[key v] fields]; simpl.
    + rewrite decide_True by done. eexists. split; [done|]. left. auto.
    + eexists. split; [done|]. by right.
Qed.

Lemma non_array_team_file_stops_run_witness :
  let teams := JObj [("teams", JArr [JObj [("id", JInt 1)]])] in
  let w := World (SourceJson teams) (api Sample.scenario_a) SinkOk in
  ∃ r, run Sample.me w 1 Sample.fresh = Some (r, Sample.fresh) ∧
       (((teams = JObj [] ∨ teams = JStr "") ∧ r = Ok ()) ∨
        (teams ≠ JObj [] ∧ teams ≠ JStr "" ∧ r = Raise TypeError)).
Proof.
  intros teams w.
  apply (non_array_team_file_stops_run Sample.me w teams 1 Sample.fresh).
  - reflexivity.
  - intros items. discriminate.
Defined.

(** ** What the except clauses let through *)

(** A team file that is not UTF-8 text: the read raises
    [UnicodeDecodeError], which neither [except] clause of the loader
    names; the run ends there with no diagnostic, no request and the
    output file as it was. *)
Example undecodable_team_file_escapes_run :
  run Sample.me Fixture.latin1_team_file 1 Sample.fresh
  = Some (Raise UnicodeDecodeError, Sample.fresh).
Proof. reflexivity. Qed.

(** A record that cannot be encoded: the dump raises [UnicodeEncodeError]
    after [open] has cut the file, [except IOError] does not catch it, and
    the run raises with no write-error message and a truncated file. *)
Example unencodable_record_escapes_run :
  run Sample.me Fixture.unencodable_record 1 (State [] (Some Prior))
  = Some (Raise UnicodeEncodeError,
          State [Print MsgStartFetch; HttpGet 0 100; Print (MsgObtained 1 1);
                 Print MsgGrouping]
                (Some Truncated)).
Proof. vm_compute. reflexivity. Qed.

(** ** Two passes over the same objects *)

Ltac unfold_H :=
  unfold mbind, Obj.H_bind, mret, Obj.H_ret, Obj.say, Obj.alloc, Obj.load,
         Obj.store, Obj.throw;
  simpl.

Lemma dict_set_new entries k a :
  k ∉ entries.*1 → Obj.dict_set entries k a = entries ++ [(k, a)].
Proof.
  induction entries as [|[k' a'] entries IH]; simpl; [done|].
  intros Hk. apply not_elem_of_cons in Hk as [Hne Hk].
  rewrite decide_False by done. by rewrite IH.
Qed.

Lemma dict_get_absent entries k :
  k ∉ entries.*1 → Obj.dict_get entries k = None.
Proof.
  induction entries as [|[k' a'] entries IH]; simpl; [done|].
  intros Hk. apply not_elem_of_cons in Hk as [Hne Hk].
  rewrite decide_False by done. by apply IH.
Qed.

Lemma dict_get_present entries : ∀ j k a,
  NoDup (entries.*1) → entries !! j = Some (k, a) →
  Obj.dict_get entries k = Some a.
Proof.
  induction entries as [|[k' a'] entries IH]; intros j k a Hnd Hj; [done|].
  simpl in *. apply NoDup_cons in Hnd as [Hk' Hnd].
  destruct j as [|j]; simpl in Hj.
  - injection Hj as -> ->. by rewrite decide_True.
  - rewrite decide_False; [by eapply IH|].
    intros ->. apply Hk', list_elem_of_fmap. exists (k, a). split; [done|].
    by eapply list_elem_of_lookup_2.
Qed.

Lemma entries_from_keys members : ∀ b, (Obj.entries_from b members).*1 = members.
Proof. induction members as [|k ms IH]; intros b; simpl; [done|]. by rewrite IH. Qed.

Lemma entries_from_app pre : ∀ b suf,
  Obj.entries_from b (pre ++ suf)
  = Obj.entries_from b pre ++ Obj.entries_from (b + length pre)%nat suf.
Proof.
  induction pre as [|k pre IH]; intros b suf; simpl.
  - by rewrite Nat.add_0_r.
  - rewrite IH. do 3 f_equal. lia.
Qed.

Lemma entries_from_lookup members : ∀ b j k,
  members !! j = Some k →
  Obj.entries_from b members !! j = Some (k, (b + j)%nat).
Proof.
  induction members as [|k' ms IH]; intros b j k Hj; [done|].
  destruct j as [|j]; simpl in *.
  - injection Hj as ->. by rewrite Nat.add_0_r.
  - rewrite (IH _ _ _ Hj). do 2 f_equal. lia.
Qed.

Section cells.
Context (h0 : list Obj.cell) (members : list pykey).
Implicit Types (buckets : list (list Obj.addr)).

Lemma grouped_cells_old buckets a c :
  h0 !! a = Some c → Obj.grouped_cells h0 members buckets !! a = Some c.
Proof. intros Ha. unfold Obj.grouped_cells. by apply lookup_app_l_Some. Qed.

Lemma grouped_cells_dict buckets :
  Obj.grouped_cells h0 members buckets !! length h0
  = Some (Obj.CDict (Obj.entries_from (S (length h0)) members)).
Proof. unfold Obj.grouped_cells. by rewrite list_lookup_middle. Qed.

Lemma grouped_cells_bucket buckets j :
  Obj.grouped_cells h0 members buckets !! (S (length h0) + j)%nat
  = Obj.CList <$> buckets !! j.
Proof.
  unfold Obj.grouped_cells.
  rewrite lookup_app_r by lia.
  replace (S (length h0) + j - length h0)%nat with (S j) by lia.
  simpl. by rewrite list_lookup_fmap.
Qed.

Lemma grouped_cells_store buckets j held :
  (j < length buckets)%nat →
  <[ (S (length h0) + j)%nat := Obj.CList held ]>
    (Obj.grouped_cells h0 members buckets)
  = Obj.grouped_cells h0 members (<[ j := held ]> buckets).
Proof.
  intros Hj. unfold Obj.grouped_cells.
  rewrite insert_app_r_alt by lia.
  replace (S (length h0) + j - length h0)%nat with (S j) by lia.
  simpl. by rewrite list_fmap_insert.
Qed.

Lemma grouped_cells_prefix buckets :
  h0 `prefix_of` Obj.grouped_cells h0 members buckets.
Proof. unfold Obj.grouped_cells. by apply prefix_app_r. Qed.

Lemma grouped_cells_length buckets :
  length (Obj.grouped_cells h0 members buckets)
  = (S (length h0) + length buckets)%nat.
Proof.
  unfold Obj.grouped_cells. rewrite length_app. simpl.
  rewrite length_fmap. lia.
Qed.
End cells.

Section pass.
Context (self : BalanceUpdater) (h0 : list Obj.cell).
Context (transactions team_ids : Obj.addr).
Context (members : list pykey) (tvs : list (Obj.addr * json)).
Hypothesis Hset : h0 !! team_ids = Some (Obj.CSet members).
Hypothesis Hnodup : NoDup members.
Hypothesis Hlist : h0 !! transactions = Some (Obj.CList (tvs.*1)).
Hypothesis Hrecords :
  Forall (λ av, h0 !! av.1 = Some (Obj.CRecord av.2)) tvs.

Lemma fill_buckets_spec c : ∀ suf pre fuel,
  members = pre ++ suf → (length suf < fuel)%nat →
  Obj.fill_buckets fuel (length h0) team_ids (length members) (length pre)
    (Obj.Memory (Obj.grouped_cells h0 pre (replicate (length pre) [])) c)
  = Some (Ok (),
          Obj.Memory
            (Obj.grouped_cells h0 members (replicate (length members) [])) c).
Proof.
  induction suf as [|k suf IH]; intros pre fuel Hmem Hfuel;
    (destruct fuel as [|fuel]; [simpl in Hfuel; lia|]);
    cbn [Obj.fill_buckets]; unfold_H;
    rewrite (grouped_cells_old _ _ _ _ _ Hset);
    rewrite decide_True by done.
  - rewrite app_nil_r in Hmem. subst pre.
    by rewrite lookup_ge_None_2.
  - assert (members !! length pre = Some k) as ->
      by (subst members; apply list_lookup_middle; done).
    cbn [Obj.cells Obj.console].
    assert (Obj.grouped_cells h0 pre (replicate (length pre) [])
              ++ [Obj.CList []]
            = Obj.grouped_cells h0 pre (replicate (length (pre ++ [k])) []))
      as ->.
    { unfold Obj.grouped_cells. rewrite <- app_assoc. simpl.
      rewrite length_app. simpl. rewrite Nat.add_1_r.
      by rewrite replicate_S_end, fmap_app. }
    rewrite grouped_cells_dict. cbn [Obj.cells Obj.console].
    rewrite dict_set_new.
    2:{ rewrite entries_from_keys. intros Hin. subst members.
        apply NoDup_app in Hnodup as (_ & Hdisj & _).
        apply (Hdisj k Hin). by left. }
    rewrite grouped_cells_length, length_replicate.
    match goal with
    | |- Obj.fill_buckets _ _ _ _ _ ?m = _ =>
        replace m with
          (Obj.Memory (Obj.grouped_cells h0 (pre ++ [k])
                         (replicate (length (pre ++ [k])) [])) c)
    end.
    2:{ f_equal. unfold Obj.grouped_cells.
        rewrite insert_app_r_alt by lia.
        rewrite Nat.sub_diag. simpl. by rewrite entries_from_app. }
    replace (S (length pre)) with (length (pre ++ [k]))
      by (rewrite length_app; simpl; lia).
    apply IH; [|simpl in Hfuel; lia].
    by rewrite <- app_assoc.
Qed.

Lemma bucket_of_snoc_filed k pre a v :
  filed_under self k v →
  Obj.bucket_of self k (pre ++ [(a, v)]) = Obj.bucket_of self k pre ++ [a].
Proof.
  intros Hk. unfold Obj.bucket_of.
  rewrite filter_app, fmap_app. f_equal.
  by rewrite filter_cons_True.
Qed.

Lemma bucket_of_snoc_other k pre a v :
  ¬ filed_under self k v →
  Obj.bucket_of self k (pre ++ [(a, v)]) = Obj.bucket_of self k pre.
Proof.
  intros Hk. unfold Obj.bucket_of.
  rewrite filter_app, fmap_app.
  rewrite (filter_cons_False _ (a, v)) by done.
  by rewrite filter_nil, app_nil_r.
Qed.

Lemma buckets_snoc_filed pre a v k0 j :
  tx_key self v = Ok (Some k0) → members !! j = Some k0 →
  (λ k, Obj.bucket_of self k (pre ++ [(a, v)])) <$> members
  = <[ j := Obj.bucket_of self k0 pre ++ [a] ]>
      ((λ k, Obj.bucket_of self k pre) <$> members).
Proof.
  intros Hkey Hj. apply list_eq. intros j'.
  rewrite list_lookup_fmap.
  destruct (decide (j' = j)) as [->|Hne].
  - rewrite list_lookup_insert_eq
      by (rewrite length_fmap; by eapply lookup_lt_Some).
    rewrite Hj. simpl. f_equal. by apply bucket_of_snoc_filed.
  - rewrite list_lookup_insert_ne by done. rewrite list_lookup_fmap.
    destruct (members !! j') as [k'|] eqn:Hj'; simpl; [|done].
    f_equal. apply bucket_of_snoc_other. intros Hk'.
    apply Hne. eapply NoDup_lookup; [exact Hnodup|exact Hj'|].
    unfold filed_under in Hk'. congruence.
Qed.

Lemma buckets_snoc_other pre a v :
  (∀ k, k ∈ members → ¬ filed_under self k v) →
  (λ k, Obj.bucket_of self k (pre ++ [(a, v)])) <$> members
  = (λ k, Obj.bucket_of self k pre) <$> members.
Proof.
  intros Hno. apply list_fmap_ext. intros j k Hj.
  apply bucket_of_snoc_other, Hno. by eapply list_elem_of_lookup_2.
Qed.

Lemma group_rounds_spec c : ∀ suf pre fuel,
  tvs = pre ++ suf → (length suf < fuel)%nat →
  ∃ buckets,
    Obj.group_rounds fuel self transactions (length h0) (length pre)
      (Obj.Memory
         (Obj.grouped_cells h0 members
            ((λ k, Obj.bucket_of self k pre) <$> members)) c)
    = Some (Obj.rounds_result self suf,
            Obj.Memory (Obj.grouped_cells h0 members buckets) c) ∧
    length buckets = length members ∧
    (Obj.rounds_result self suf = Ok () →
     buckets = (λ k, Obj.bucket_of self k tvs) <$> members).
Proof.
  induction suf as [|[a v] suf IH]; intros pre fuel Htvs Hfuel;
    (destruct fuel as [|fuel]; [simpl in Hfuel; lia|]);
    cbn [Obj.group_rounds]; unfold_H;
    rewrite (grouped_cells_old _ _ _ _ _ Hlist).
  - rewrite app_nil_r in Htvs. subst pre.
    rewrite lookup_ge_None_2 by (by rewrite length_fmap).
    eexists. split; [done|]. by rewrite length_fmap.
  - assert (tvs.*1 !! length pre = Some a) as ->.
    { subst tvs. rewrite fmap_app. simpl.
      rewrite <- (length_fmap fst pre). by apply list_lookup_middle. }
    assert (h0 !! a = Some (Obj.CRecord v)) as Ha.
    { apply (proj1 (Forall_forall _ _) Hrecords (a, v)).
      subst tvs. apply elem_of_app. right. by left. }
    cbn [Obj.cells Obj.console].
    rewrite (grouped_cells_old _ _ _ _ _ Ha).
    assert (tvs = (pre ++ [(a, v)]) ++ suf) as Htvs'
      by (by rewrite <- app_assoc).
    assert (length (pre ++ [(a, v)]) = S (length pre)) as Hlen
      by (rewrite length_app; simpl; lia).
    destruct (tx_key self v) as [[k0|]|e] eqn:Hkey.
    + cbn [Obj.cells Obj.console]. rewrite grouped_cells_dict.
      destruct (decide (k0 ∈ members)) as [Hin|Hout].
      * apply list_elem_of_lookup_1 in Hin as [j Hj].
        rewrite (dict_get_present _ j k0 (S (length h0) + j)%nat).
        2:{ by rewrite entries_from_keys. }
        2:{ by apply entries_from_lookup. }
        cbn [Obj.cells Obj.console].
        rewrite grouped_cells_bucket, list_lookup_fmap, Hj. simpl.
        change (S (length h0 + j)) with (S (length h0) + j)%nat.
        rewrite grouped_cells_store
          by (rewrite length_fmap; by eapply lookup_lt_Some).
        rewrite <- (buckets_snoc_filed pre a v k0 j Hkey Hj).
        rewrite <- Hlen.
        destruct (IH (pre ++ [(a, v)]) fuel Htvs') as (bs & Hrun & Hbs);
          [simpl in Hfuel; lia|].
        exists bs. by rewrite Hrun.
      * rewrite dict_get_absent by (by rewrite entries_from_keys).
        rewrite <- (buckets_snoc_other pre a v).
        2:{ intros k Hk Hfiled. unfold filed_under in Hfiled.
            apply Hout. congruence. }
        rewrite <- Hlen.
        destruct (IH (pre ++ [(a, v)]) fuel Htvs') as (bs & Hrun & Hbs);
          [simpl in Hfuel; lia|].
        exists bs. by rewrite Hrun.
    + rewrite <- (buckets_snoc_other pre a v).
      2:{ intros k Hk Hfiled. unfold filed_under in Hfiled. congruence. }
      rewrite <- Hlen.
      destruct (IH (pre ++ [(a, v)]) fuel Htvs') as (bs & Hrun & Hbs);
        [simpl in Hfuel; lia|].
      exists bs. by rewrite Hrun.
    + eexists. split; [done|]. by rewrite length_fmap.
Qed.

Lemma group_transactions_spec c fuel :
  (length members < fuel)%nat → (length tvs < fuel)%nat →
  ∃ buckets,
    Obj._group_transactions self fuel transactions team_ids
      (Obj.Memory h0 c)
    = Some (match Obj.rounds_result self tvs with
            | Ok _ => Ok (length h0)
            | Raise e => Raise e
            end,
            Obj.Memory (Obj.grouped_cells h0 members buckets)
                       (c ++ [Print MsgGrouping])) ∧
    length buckets = length members ∧
    (Obj.rounds_result self tvs = Ok () →
     buckets = (λ k, Obj.bucket_of self k tvs) <$> members).
Proof.
  intros Hfuel1 Hfuel2.
  unfold Obj._group_transactions. unfold_H.
  rewrite (lookup_app_l_Some _ _ _ _ Hset).
  change (h0 ++ [Obj.CDict []])
    with (Obj.grouped_cells h0 [] (replicate (length (@nil pykey)) [])).
  change 0%nat with (length (@nil pykey)) at 1.
  rewrite (fill_buckets_spec _ members [] fuel eq_refl Hfuel1).
  destruct (group_rounds_spec (c ++ [Print MsgGrouping])
              tvs [] fuel eq_refl Hfuel2) as (buckets & Hrun & Hlen & Hok).
  assert ((λ k, Obj.bucket_of self k []) <$> members
          = replicate (length members) []) as Hempty
    by (by apply const_fmap).
  rewrite Hempty in Hrun. simpl in Hrun. rewrite Hrun.
  exists buckets. split; [|done].
  by destruct (Obj.rounds_result self tvs) as [[]|e].
Qed.
End pass.

(** ** Reading a grouped result back *)

Lemma read_records h (l : list (Obj.addr * json)) :
  Forall (λ av, h !! av.1 = Some (Obj.CRecord av.2)) l →
  mapM (Obj.read_record h) (l.*1) = Some (l.*2).
Proof.
  induction 1 as [|[a v] l Ha _ IH]; [done|].
  apply mapM_Some_2. simpl in *. constructor.
  - unfold Obj.read_record. by rewrite Ha.
  - by apply mapM_Some_1.
Qed.

Lemma filter_values (P : json → Prop) `{∀ v, Decision (P v)}
    (l : list (Obj.addr * json)) :
  (filter (λ av, P av.2) l).*2 = filter P (l.*2).
Proof.
  induction l as [|[a v] l IH]; [done|].
  change ((a, v) :: l) with ([(a, v)] ++ l).
  rewrite filter_app, !fmap_app, filter_app, IH. f_equal.
  rewrite (filter_cons _ (a, v)), filter_nil. simpl.
  rewrite (filter_cons _ v), filter_nil.
  by destruct (decide (P v)).
Qed.

Lemma read_dict_buckets self h0 members (tvs : list (Obj.addr * json)) :
  Forall (λ av, h0 !! av.1 = Some (Obj.CRecord av.2)) tvs →
  Obj.read_dict
    (Obj.grouped_cells h0 members
       ((λ k, Obj.bucket_of self k tvs) <$> members)) (length h0)
  = Some ((λ k, (k, filter (filed_under self k) (tvs.*2))) <$> members).
Proof.
  intros Hrecords. unfold Obj.read_dict. rewrite grouped_cells_dict.
  apply mapM_Some_2, Forall2_same_length_lookup_2.
  { rewrite length_fmap, <- (length_fmap fst), entries_from_keys. done. }
  intros j [k b] y Hentry Hy.
  rewrite list_lookup_fmap in Hy.
  destruct (members !! j) as [k'|] eqn:Hj; [|done].
  rewrite (entries_from_lookup _ _ _ _ Hj) in Hentry.
  injection Hentry as <- <-. injection Hy as <-. cbv beta. cbn [fst snd].
  unfold Obj.read_list.
  change (S (length h0 + j)) with (S (length h0) + j)%nat.
  rewrite grouped_cells_bucket, list_lookup_fmap, Hj. simpl.
  unfold Obj.bucket_of. rewrite read_records.
  - simpl. by rewrite filter_values.
  - apply Forall_forall. intros av [_ Hin]%list_elem_of_filter.
    apply grouped_cells_old.
    by apply (proj1 (Forall_forall _ _) Hrecords av).
Qed.

Lemma read_dict_prefix h h' d value :
  h `prefix_of` h' → Obj.read_dict h d = Some value →
  Obj.read_dict h' d = Some value.
Proof.
  intros Hpre. unfold Obj.read_dict.
  destruct (h !! d) as [[| | |entries]|] eqn:Hd; try done.
  assert (h' !! d = Some (Obj.CDict entries)) as ->
    by (by eapply prefix_lookup_Some).
  intros Hread%mapM_Some_1. apply mapM_Some_2.
  eapply Forall2_impl; [exact Hread|].
  intros [k b] y. cbn [fst snd]. unfold Obj.read_list.
  destruct (h !! b) as [[|items| |]|] eqn:Hb; try done.
  assert (h' !! b = Some (Obj.CList items)) as ->
    by (by eapply prefix_lookup_Some).
  destruct (mapM (Obj.read_record h) items) as [vs|] eqn:Hitems; [|done].
  simpl. intros [= <-].
  apply mapM_Some_1 in Hitems.
  rewrite (mapM_Some_2 (Obj.read_record h') items vs); [done|].
  eapply Forall2_impl; [exact Hitems|].
  intros a v. unfold Obj.read_record.
  destruct (h !! a) as [[v'| | |]|] eqn:Ha; try done.
  assert (h' !! a = Some (Obj.CRecord v')) as ->
    by (by eapply prefix_lookup_Some).
  done.
Qed.

Lemma records_of_zip (h : list Obj.cell) (taddrs : list Obj.addr) (vs : list json) :
  Forall2 (λ a v, h !! a = Some (Obj.CRecord v)) taddrs vs →
  (zip taddrs vs).*1 = taddrs ∧ (zip taddrs vs).*2 = vs ∧
  Forall (λ av, h !! av.1 = Some (Obj.CRecord av.2)) (zip taddrs vs).
Proof.
  induction 1 as [|a v taddrs vs Ha _ (IH1 & IH2 & IH3)]; [done|].
  cbn [zip zip_with]. rewrite !fmap_cons, IH1, IH2.
  repeat split; try done. by constructor.
Qed.

(** C6.  Two passes over the same transactions and the same team
    identifiers give identical results.  On a memory that holds the list
    of transactions, its records and the set of identifiers, the pass run
    once and then again on the memory the first pass left: neither pass
    changes an object that was there before it (the list, the records,
    the set, and for the second pass the result of the first); both
    raise the same exception, or both return a dict, two distinct
    objects that read the same: the same keys in the same order, that of
    the set, each with the same records in the same order. *)
Theorem second_pass_gives_the_same_result self fuel transactions team_ids
    (m : Obj.memory) taddrs vs members :
  Obj.cells m !! transactions = Some (Obj.CList taddrs) →
  Forall2 (λ a v, Obj.cells m !! a = Some (Obj.CRecord v)) taddrs vs →
  Obj.cells m !! team_ids = Some (Obj.CSet members) →
  NoDup members →
  (length members < fuel)%nat →
  (length taddrs < fuel)%nat →
  ∃ r1 m1 r2 m2,
    Obj._group_transactions self fuel transactions team_ids m = Some (r1, m1) ∧
    Obj._group_transactions self fuel transactions team_ids m1 = Some (r2, m2) ∧
    Obj.cells m `prefix_of` Obj.cells m1 ∧
    Obj.cells m1 `prefix_of` Obj.cells m2 ∧
    match r1, r2 with
    | Ok d1, Ok d2 =>
        d1 ≠ d2 ∧
        ∃ value,
          value = (λ k, (k, filter (filed_under self k) vs)) <$> members ∧
          Obj.read_dict (Obj.cells m1) d1 = Some value ∧
          Obj.read_dict (Obj.cells m2) d2 = Some value ∧
          Obj.read_dict (Obj.cells m2) d1 = Some value
    | Raise e1, Raise e2 => e1 = e2
    | _, _ => False
    end.
Proof.
  destruct m as [h0 c]. cbn [Obj.cells].
  intros Hlist Hvs Hset Hnodup Hfuel1 Hfuel2.
  destruct (records_of_zip _ _ _ Hvs) as (Hfst & Hsnd & Hrecords).
  set (tvs := zip taddrs vs) in *.
  rewrite <- Hfst in Hlist.
  assert (length tvs < fuel)%nat as Hfuel2'
    by (by rewrite <- (length_fmap fst), Hfst).
  destruct (group_transactions_spec self h0 transactions team_ids members tvs
              Hset Hnodup Hlist Hrecords c fuel Hfuel1 Hfuel2')
    as (bs1 & Hrun1 & Hlen1 & Hok1).
  set (h1 := Obj.grouped_cells h0 members bs1) in *.
  assert (Forall (λ av, h1 !! av.1 = Some (Obj.CRecord av.2)) tvs)
    as Hrecords1.
  { eapply Forall_impl; [exact Hrecords|]. intros av Hav.
    by apply grouped_cells_old. }
  destruct (group_transactions_spec self h1 transactions team_ids members tvs
              (grouped_cells_old _ _ _ _ _ Hset) Hnodup
              (grouped_cells_old _ _ _ _ _ Hlist) Hrecords1
              (c ++ [Print MsgGrouping]) fuel Hfuel1 Hfuel2')
    as (bs2 & Hrun2 & Hlen2 & Hok2).
  eexists _, _, _, _. split; [exact Hrun1|]. split; [exact Hrun2|].
  cbn [Obj.cells]. split; [apply grouped_cells_prefix|].
  split; [apply grouped_cells_prefix|].
  destruct (Obj.rounds_result self tvs) as [[]|e]; [|done].
  split.
  { unfold h1. rewrite grouped_cells_length. lia. }
  pose proof (Hok1 eq_refl) as Hb1. pose proof (Hok2 eq_refl) as Hb2.
  subst h1 bs1 bs2.
  eexists. split; [reflexivity|]. rewrite <- Hsnd.
  split; [|split].
  - by apply read_dict_buckets.
  - by apply read_dict_buckets.
  - eapply read_dict_prefix; [apply grouped_cells_prefix|].
    by apply read_dict_buckets.
Qed.

Lemma second_pass_gives_the_same_result_witness :
  let vs := [Sample.tx "transfer" 1; Sample.tx "market" 2;
             Sample.tx "clauseIncrement" 1] in
  let members := [KInt 2; KInt 1] in
  ∃ r1 m1 r2 m2,
    Obj._group_transactions Sample.me 4 ObjSample.transactions
      ObjSample.team_ids ObjSample.memory = Some (r1, m1) ∧
    Obj._group_transactions Sample.me 4 ObjSample.transactions
      ObjSample.team_ids m1 = Some (r2, m2) ∧
    Obj.cells ObjSample.memory `prefix_of` Obj.cells m1 ∧
    Obj.cells m1 `prefix_of` Obj.cells m2 ∧
    match r1, r2 with
    | Ok d1, Ok d2 =>
        d1 ≠ d2 ∧
        ∃ value,
          value = (λ k, (k, filter (filed_under Sample.me k) vs)) <$> members ∧
          Obj.read_dict (Obj.cells m1) d1 = Some value ∧
          Obj.read_dict (Obj.cells m2) d2 = Some value ∧
          Obj.read_dict (Obj.cells m2) d1 = Some value
    | Raise e1, Raise e2 => e1 = e2
    | _, _ => False
    end.
Proof.
  intros vs members.
  apply (second_pass_gives_the_same_result Sample.me 4
           ObjSample.transactions ObjSample.team_ids ObjSample.memory
           [0; 1; 2]%nat vs members).
  - reflexivity.
  - repeat constructor.
  - reflexivity.
  - apply (bool_decide_unpack _). vm_compute. reflexivity.
  - simpl. lia.
  - simpl. lia.
Defined.

(** The two passes on the sample memory: the second dict is a new object,
    both read as team 2 then team 1, with the records in arrival order. *)
Example two_passes_over_the_sample :
  ∃ m1 m2,
    Obj._group_transactions Sample.me 4 ObjSample.transactions
      ObjSample.team_ids ObjSample.memory = Some (Ok 5%nat, m1) ∧
    Obj._group_transactions Sample.me 4 ObjSample.transactions
      ObjSample.team_ids m1 = Some (Ok 8%nat, m2) ∧
    Obj.read_dict (Obj.cells m1) 5%nat
      = Some [(KInt 2, [Sample.tx "market" 2]);
              (KInt 1, [Sample.tx "transfer" 1;
                        Sample.tx "clauseIncrement" 1])] ∧
    Obj.read_dict (Obj.cells m2) 8%nat = Obj.read_dict (Obj.cells m1) 5%nat ∧
    take 5%nat (Obj.cells m2) = Obj.cells ObjSample.memory.
Proof.
  eexists _, _. split; [vm_compute; reflexivity|].
  split; [vm_compute; reflexivity|].
  repeat split; vm_compute; reflexivity.
Qed.

(** What is read back from the objects is the grouped result of the
    pass over values, with the keys in the order of the set. *)
Lemma read_value_is_the_grouped_map self vs (members : list pykey) g :
  group_loop self vs (gset_to_gmap [] (list_to_set members)) = Ok g →
  ∀ k bucket,
    (k, bucket) ∈ ((λ k, (k, filter (filed_under self k) vs)) <$> members) ↔
    g !! k = Some bucket.
Proof.
  intros Hloop k bucket. rewrite (group_loop_from_ids _ _ _ _ k Hloop).
  rewrite list_elem_of_fmap. split.
  - intros (k' & [= -> ->] & Hin). rewrite decide_True; [done|].
    by apply elem_of_list_to_set.
  - destruct (decide (k ∈ list_to_set members)) as [Hin|]; [|done].
    intros [= <-]. exists k. split; [done|].
    by apply elem_of_list_to_set in Hin.
Qed.
